(** * The epoll() poller of HAProxy (src/ev_epoll.c)

    A shallow embedding of the file's bit-set accessors, of [epoll_init] and
    of [epoll_poll], with the properties of its specification.

    The four fd_sets are modelled the way [epoll_poll] itself reads them
    ([((int* )StaticReadEvent)[fds]], FDSETS_ARE_INT_ALIGNED): as arrays of
    32-bit words, descriptor [fd] being bit [fd mod 32] of word [fd / 32].
    Kernel calls and callback dispatches are recorded in a trace. *)

From Stdlib Require Import ZArith Lia Bool List String.
From stdpp Require Import base option list list_numbers.
Import ListNotations.

Local Open Scope Z_scope.

(** ** Constants of the headers *)

(** Modelled from the spec: the macro INTBITS of common/defaults.h, which
    is not among the sources at hand.  A chunk is one native word and the
    poller reads the sets as [int]s of 32 bits, so that [1 << INTBITS] is
    32. *)
Definition INTBITS : Z := 5.

(** Modelled from the spec: the two directions, macros of types/fd.h.  The
    accessors only test [dir == DIR_RD]; any other value selects the write
    set. *)
Definition DIR_RD : Z := 0.
Definition DIR_WR : Z := 1.

(** Modelled from the spec: the lifecycle state of a descriptor table
    entry, of types/fd.h.  The poller only ever compares a state against
    [FD_STCLOSE], the pending-close state; every other value is an open
    descriptor. *)
Definition FD_STCLOSE : Z := 0.

(** The readiness flags of the system header sys/epoll.h. *)
Definition EPOLLIN : Z := 1.
Definition EPOLLOUT : Z := 4.
Definition EPOLLERR : Z := 8.
Definition EPOLLHUP : Z := 16.

Inductive ctl_op := EPOLL_CTL_ADD | EPOLL_CTL_DEL | EPOLL_CTL_MOD.

(** [struct epoll_event], with [data.fd] as the only member of the union
    that is used. *)
Record epoll_event := mkEvent { events : Z; data_fd : Z }.

(** ** The fd_sets *)

Abbreviation fd_set := (list Z).

(** [((int* )ev)[i]].  An access outside the allocated words is undefined in
    C; here a read yields 0 and a write is dropped, and the statements that
    depend on it carry a range hypothesis. *)
Definition word_at (ev : fd_set) (i : Z) : Z :=
  if i <? 0 then 0 else default 0 (ev !! Z.to_nat i).

Definition set_word (ev : fd_set) (i : Z) (w : Z) : fd_set :=
  if i <? 0 then ev else <[Z.to_nat i := w]> ev.

Definition fd_elt (fd : Z) : Z := fd / 2 ^ INTBITS.
Definition fd_mask (fd : Z) : Z := Z.shiftl 1 (fd mod 2 ^ INTBITS).

Definition fds_isset (fd : Z) (ev : fd_set) : bool :=
  negb (Z.land (word_at ev (fd_elt fd)) (fd_mask fd) =? 0).

Definition fds_set (fd : Z) (ev : fd_set) : fd_set :=
  set_word ev (fd_elt fd) (Z.lor (word_at ev (fd_elt fd)) (fd_mask fd)).

Definition fds_clr (fd : Z) (ev : fd_set) : fd_set :=
  set_word ev (fd_elt fd) (Z.land (word_at ev (fd_elt fd)) (Z.lnot (fd_mask fd))).

(** [fd] designates a bit of the allocated words of [ev]. *)
Definition fd_in_set (fd : Z) (ev : fd_set) : Prop :=
  0 <= fd < 2 ^ INTBITS * Z.of_nat (length ev).

(** Every word fits the 32 bits of an [int]. *)
Definition words_ok (ev : fd_set) : Prop :=
  Forall (fun w => 0 <= w < 2 ^ 32) ev.

(** ** The state the file works on *)

(** The file's four static pointers, and of the globals of fd.c the ones the
    poller reads: [maxfd] and the [state] member of the [fdtab] entries
    (indexed by descriptor; an entry that was never opened is closed). *)
Record state := mkState {
  StaticReadEvent : fd_set;
  StaticWriteEvent : fd_set;
  PrevReadEvent : fd_set;
  PrevWriteEvent : fd_set;
  maxfd : Z;
  fdtab_state : list Z
}.

(** The value of one of the four [fd_set *] variables. *)
Inductive evptr := P_StaticRead | P_StaticWrite | P_PrevRead | P_PrevWrite.

Definition load (p : evptr) (s : state) : fd_set :=
  match p with
  | P_StaticRead => StaticReadEvent s
  | P_StaticWrite => StaticWriteEvent s
  | P_PrevRead => PrevReadEvent s
  | P_PrevWrite => PrevWriteEvent s
  end.

Definition store (p : evptr) (v : fd_set) (s : state) : state :=
  match p with
  | P_StaticRead =>
      mkState v (StaticWriteEvent s) (PrevReadEvent s) (PrevWriteEvent s)
              (maxfd s) (fdtab_state s)
  | P_StaticWrite =>
      mkState (StaticReadEvent s) v (PrevReadEvent s) (PrevWriteEvent s)
              (maxfd s) (fdtab_state s)
  | P_PrevRead =>
      mkState (StaticReadEvent s) (StaticWriteEvent s) v (PrevWriteEvent s)
              (maxfd s) (fdtab_state s)
  | P_PrevWrite =>
      mkState (StaticReadEvent s) (StaticWriteEvent s) (PrevReadEvent s) v
              (maxfd s) (fdtab_state s)
  end.

(** [fdtab[fd].state] *)
Definition fd_state (s : state) (fd : Z) : Z :=
  if fd <? 0 then FD_STCLOSE
  else default FD_STCLOSE (fdtab_state s !! Z.to_nat fd).

(** ** Effects: state and trace *)

(** What the file does to the outside: the three epoll system calls, the
    update of the time cache, and the calls of the descriptors' callbacks. *)
Inductive event :=
| Epoll_ctl (op : ctl_op) (fd : Z) (ev_events : Z)
| Epoll_wait (maxevents : Z) (timeout : Z)
| Tv_now
| Callback (dir : Z) (fd : Z).

(** A computation reads and writes the state and emits events. *)
Definition M (A : Type) : Type := state -> A * state * list event.

Definition ret {A} (a : A) : M A := fun s => (a, s, []).

Definition bind {A B} (c : M A) (k : A -> M B) : M B :=
  fun s =>
    let r1 := c s in
    let r2 := k (fst (fst r1)) (snd (fst r1)) in
    (fst (fst r2), snd (fst r2), snd r1 ++ snd r2).

Notation "x <- c ;; k" := (bind c (fun x => k))
  (at level 100, c at next level, right associativity).
Notation "c ;;; k" := (bind c (fun _ => k))
  (at level 100, right associativity).

Definition get : M state := fun s => (s, s, []).
Definition modify (f : state -> state) : M unit := fun s => (tt, f s, []).
Definition emit (e : event) : M unit := fun s => (tt, s, [e]).

Definition result {A} (r : A * state * list event) : A := fst (fst r).
Definition final {A} (r : A * state * list event) : state := snd (fst r).
Definition trace {A} (r : A * state * list event) : list event := snd r.

(** ** The FD_* macros on a pointer *)

Definition FD_ISSET (fd : Z) (ev : evptr) : M bool :=
  s <- get ;; ret (fds_isset fd (load ev s)).

Definition FD_SET (fd : Z) (ev : evptr) : M unit :=
  modify (fun s => store ev (fds_set fd (load ev s)) s).

Definition FD_CLR (fd : Z) (ev : evptr) : M unit :=
  modify (fun s => store ev (fds_clr fd (load ev s)) s).

(** ** The accessors (lines 50-125) *)

(** [if (dir == DIR_RD) ev = StaticReadEvent; else ev = StaticWriteEvent;] *)
Definition dir_ev (dir : Z) : evptr :=
  if dir =? DIR_RD then P_StaticRead else P_StaticWrite.

Definition __fd_isset (fd dir : Z) : M Z :=
  let ev := dir_ev dir in
  b <- FD_ISSET fd ev ;; ret (Z.b2z b).

Definition __fd_set (fd dir : Z) : M unit :=
  let ev := dir_ev dir in
  FD_SET fd ev.

Definition __fd_clr (fd dir : Z) : M unit :=
  let ev := dir_ev dir in
  FD_CLR fd ev.

Definition __fd_cond_s (fd dir : Z) : M Z :=
  let ev := dir_ev dir in
  b <- FD_ISSET fd ev ;;
  let ret_ := Z.b2z (negb b) in
  (if ret_ =? 0 then ret tt else FD_SET fd ev) ;;;
  ret ret_.

Definition __fd_cond_c (fd dir : Z) : M Z :=
  let ev := dir_ev dir in
  b <- FD_ISSET fd ev ;;
  let ret_ := Z.b2z b in
  (if ret_ =? 0 then ret tt else FD_CLR fd ev) ;;;
  ret ret_.

Definition __fd_rem (fd : Z) : M unit :=
  FD_CLR fd P_StaticRead ;;;
  FD_CLR fd P_StaticWrite.

Definition __fd_clo (fd : Z) : M unit :=
  FD_CLR fd P_StaticRead ;;;
  FD_CLR fd P_StaticWrite ;;;
  FD_CLR fd P_PrevRead ;;;
  FD_CLR fd P_PrevWrite.

(** ** Initialisation (lines 134-180) *)

(** [struct poller], with the two members [epoll_init] writes. *)
Record poller := mkPoller { private : Z; pref : Z }.

(** What [epoll_init] acquires, in the order of the calls: the epoll
    descriptor, then five zeroed allocations.  The sizes asked for
    ([global.maxsock + 1] descriptors, [global.maxsock] events,
    [fd_set_bytes] per set) play no part in the control flow and are not
    represented. *)
Inductive resource :=
| R_epoll_fd | R_epoll_events
| R_PrevReadEvent | R_PrevWriteEvent
| R_StaticReadEvent | R_StaticWriteEvent.

Definition all_resources : list resource :=
  [R_epoll_fd; R_epoll_events; R_PrevReadEvent; R_PrevWriteEvent;
   R_StaticReadEvent; R_StaticWriteEvent].

(** A successful [epoll_create] or [calloc]; a [close] or [free]. *)
Inductive res_event := Acquire (r : resource) | Release (r : resource).

(** The answers of the system: the value of [epoll_create], and whether
    each [calloc] yields a non-null pointer. *)
Record init_env := mkEnv {
  epoll_create_ret : Z;
  calloc_ok : resource -> bool
}.

Record init_result := mkInit {
  init_ret : Z;
  init_poller : poller;
  init_epoll_fd : Z;
  init_trace : list res_event
}.

(** The labels, each falling through to the next. *)
Definition fail_fd (p : poller) (epoll_fd : Z) (tr : list res_event) : init_result :=
  mkInit 0 (mkPoller (private p) 0) epoll_fd tr.

Definition fail_ee (p : poller) (epoll_fd : Z) (tr : list res_event) : init_result :=
  fail_fd p 0 (tr ++ [Release R_epoll_fd]).

Definition fail_prevt (p : poller) (epoll_fd : Z) (tr : list res_event) : init_result :=
  fail_ee p epoll_fd (tr ++ [Release R_epoll_events]).

Definition fail_pwevt (p : poller) (epoll_fd : Z) (tr : list res_event) : init_result :=
  fail_prevt p epoll_fd (tr ++ [Release R_PrevReadEvent]).

Definition fail_srevt (p : poller) (epoll_fd : Z) (tr : list res_event) : init_result :=
  fail_pwevt p epoll_fd (tr ++ [Release R_PrevWriteEvent]).

Definition fail_swevt (p : poller) (epoll_fd : Z) (tr : list res_event) : init_result :=
  fail_srevt p epoll_fd (tr ++ [Release R_StaticReadEvent]).

Definition epoll_init (env : init_env) (p : poller) : init_result :=
  let p := mkPoller 0 (pref p) in
  let epoll_fd := epoll_create_ret env in
  if epoll_fd <? 0 then fail_fd p epoll_fd [] else
  let tr := [Acquire R_epoll_fd] in
  if negb (calloc_ok env R_epoll_events) then fail_ee p epoll_fd tr else
  let tr := tr ++ [Acquire R_epoll_events] in
  if negb (calloc_ok env R_PrevReadEvent) then fail_prevt p epoll_fd tr else
  let tr := tr ++ [Acquire R_PrevReadEvent] in
  if negb (calloc_ok env R_PrevWriteEvent) then fail_pwevt p epoll_fd tr else
  let tr := tr ++ [Acquire R_PrevWriteEvent] in
  if negb (calloc_ok env R_StaticReadEvent) then fail_srevt p epoll_fd tr else
  let tr := tr ++ [Acquire R_StaticReadEvent] in
  if negb (calloc_ok env R_StaticWriteEvent) then fail_swevt p epoll_fd tr else
  let tr := tr ++ [Acquire R_StaticWriteEvent] in
  mkInit 1 p epoll_fd tr.

(** Whether the acquisition of [r] succeeds in [env]. *)
Definition acquires (env : init_env) (r : resource) : bool :=
  match r with
  | R_epoll_fd => negb (epoll_create_ret env <? 0)
  | _ => calloc_ok env r
  end.

(** The resources in hand when the first failure occurs: the longest
    prefix of the acquisition order in which every step succeeds. *)
Fixpoint acquired_upto (env : init_env) (rs : list resource) : list resource :=
  match rs with
  | [] => []
  | r :: rs' => if acquires env r then r :: acquired_upto env rs' else []
  end.

(** The resources held at the end of a trace. *)
Definition resource_eqb (a b : resource) : bool :=
  match a, b with
  | R_epoll_fd, R_epoll_fd | R_epoll_events, R_epoll_events
  | R_PrevReadEvent, R_PrevReadEvent | R_PrevWriteEvent, R_PrevWriteEvent
  | R_StaticReadEvent, R_StaticReadEvent
  | R_StaticWriteEvent, R_StaticWriteEvent => true
  | _, _ => false
  end.

Fixpoint held (tr : list res_event) (h : list resource) : list resource :=
  match tr with
  | [] => h
  | Acquire r :: tr' => held tr' (h ++ [r])
  | Release r :: tr' => held tr' (List.filter (fun x => negb (resource_eqb x r)) h)
  end.

(** ** The poller (lines 213-325) *)

Section Poll.

(** [fdtab[fd].cb[dir].f(fd)]: the callbacks are code of the caller; they
    may change the fd_sets, [maxfd] and the descriptor table.  Their
    results are not used. *)
Variable cb : Z -> Z -> state -> state.

Definition call_cb (dir fd : Z) : M unit :=
  fun s => (tt, cb dir fd s, [Callback dir fd]).

(** The value of [epoll_ctl] is tested but both outcomes do the same. *)
Definition epoll_ctl (op : ctl_op) (fd : Z) (ev : epoll_event) : M unit :=
  emit (Epoll_ctl op fd (events ev)).

(** The body of the loop over the descriptors of a changed word, in the
    variant that is compiled (FDSETS_ARE_INT_ALIGNED and
    WE_REALLY_NOW_THAT_FDSETS_ARE_INTS defined, EPOLL_CTL_MOD_WORKAROUND
    not defined). *)
Definition sync_fd (fd count ro wo rn wn : Z) : M unit :=
  let pr := Z.land (Z.shiftr ro count) 1 in
  let pw := Z.land (Z.shiftr wo count) 1 in
  let sr := Z.land (Z.shiftr rn count) 1 in
  let sw := Z.land (Z.shiftr wn count) 1 in
  if Z.lor (Z.lxor sr pr) (Z.lxor sw pw) =? 0 then ret tt
  else
    let ev := mkEvent (Z.lor (if sr =? 0 then 0 else EPOLLIN)
                             (if sw =? 0 then 0 else EPOLLOUT)) fd in
    if negb (Z.lor pr pw =? 0) then
      if negb (Z.lor sr sw =? 0) then
        epoll_ctl EPOLL_CTL_MOD fd ev
      else
        s <- get ;;
        if negb (fd_state s fd =? FD_STCLOSE) then
          epoll_ctl EPOLL_CTL_DEL fd ev
        else ret tt
    else
      epoll_ctl EPOLL_CTL_ADD fd ev.

(** [for (count = 0, fd = fds << INTBITS;
         count < (1<<INTBITS) && fd < maxfd; count++, fd++)],
    with [n] bounding the number of iterations. *)
Fixpoint fd_loop (n : nat) (count fd ro wo rn wn : Z) : M unit :=
  match n with
  | O => ret tt
  | S n' =>
      s <- get ;;
      if (count <? Z.shiftl 1 INTBITS) && (fd <? maxfd s) then
        sync_fd fd count ro wo rn wn ;;;
        fd_loop n' (count + 1) (fd + 1) ro wo rn wn
      else ret tt
  end.

(** The body of the loop over the words. *)
Definition sync_chunk (fds : Z) : M unit :=
  s <- get ;;
  let rn := word_at (StaticReadEvent s) fds in
  let ro := word_at (PrevReadEvent s) fds in
  let wn := word_at (StaticWriteEvent s) fds in
  let wo := word_at (PrevWriteEvent s) fds in
  if negb (Z.lor (Z.lxor ro rn) (Z.lxor wo wn) =? 0) then
    fd_loop (Z.to_nat (Z.shiftl 1 INTBITS)) 0 (Z.shiftl fds INTBITS)
            ro wo rn wn ;;;
    modify (fun s => store P_PrevRead (set_word (PrevReadEvent s) fds rn) s) ;;;
    modify (fun s => store P_PrevWrite (set_word (PrevWriteEvent s) fds wn) s)
  else ret tt.

(** [for (fds = 0; (fds << INTBITS) < maxfd; fds++)], with [n] bounding
    the number of iterations.  [fds << INTBITS] stays below [maxfd + 32],
    hence within an [int] for any [maxfd] a descriptor table can have. *)
Fixpoint chunk_loop (n : nat) (fds : Z) : M unit :=
  match n with
  | O => ret tt
  | S n' =>
      s <- get ;;
      if Z.shiftl fds INTBITS <? maxfd s then
        sync_chunk fds ;;;
        chunk_loop n' (fds + 1)
      else ret tt
  end.

(** The first phase; [maxfd] iterations are never all used. *)
Definition reconcile : M unit :=
  s <- get ;;
  chunk_loop (Z.to_nat (maxfd s)) 0.

(** The body of the loop over the reported events; [continue] leaves it
    as a whole. *)
Definition dispatch_event (e : epoll_event) : M unit :=
  let fd := data_fd e in
  r <- FD_ISSET fd P_StaticRead ;;
  go_on <- (if r then
              s <- get ;;
              if fd_state s fd =? FD_STCLOSE then ret false
              else
                (if negb (Z.land (events e)
                            (Z.lor EPOLLIN (Z.lor EPOLLERR EPOLLHUP)) =? 0)
                 then call_cb DIR_RD fd else ret tt) ;;;
                ret true
            else ret true) ;;
  if go_on then
    w <- FD_ISSET fd P_StaticWrite ;;
    if w then
      s <- get ;;
      if fd_state s fd =? FD_STCLOSE then ret tt
      else
        if negb (Z.land (events e)
                   (Z.lor EPOLLOUT (Z.lor EPOLLERR EPOLLHUP)) =? 0)
        then call_cb DIR_WR fd else ret tt
    else ret tt
  else ret tt.

(** [for (count = 0; count < status; count++)] over the buffer
    [epoll_events], given from index [count] on. *)
Fixpoint dispatch_loop (count status : Z) (epoll_events : list epoll_event)
  : M unit :=
  match epoll_events with
  | [] => ret tt
  | e :: rest =>
      if count <? status then
        dispatch_event e ;;;
        dispatch_loop (count + 1) status rest
      else ret tt
  end.

(** [epoll_poll(p, wait_time)].  What [epoll_wait] answers is given:
    its value [status] and the content of the buffer [epoll_events].
    The function is [void]: its caller sees the state it leaves. *)
Definition epoll_poll (wait_time : Z) (status : Z)
           (epoll_events : list epoll_event) : M unit :=
  reconcile ;;;
  s <- get ;;
  emit (Epoll_wait (maxfd s) wait_time) ;;;
  emit Tv_now ;;;
  dispatch_loop 0 status epoll_events.

End Poll.

(** The registration calls of a trace, and those for one descriptor. *)
Definition is_ctl (e : event) : bool :=
  match e with Epoll_ctl _ _ _ => true | _ => false end.

Definition is_ctl_for (d : Z) (e : event) : bool :=
  match e with Epoll_ctl _ fd _ => fd =? d | _ => false end.


Definition ctl_calls (tr : list event) : list event := List.filter is_ctl tr.

(** ** Notions used by the statements *)

(** [ev'] is [ev] except, at most, for the bit of descriptor [d]: the same
    number of words, and every bit [j] of every word [i] the same unless
    it is the bit of [d]. *)
Definition same_but_bit (d : Z) (ev ev' : fd_set) : Prop :=
  length ev' = length ev /\
  forall i j, 0 <= j -> i <> fd_elt d \/ j <> d mod 2 ^ INTBITS ->
    Z.testbit (word_at ev' i) j = Z.testbit (word_at ev i) j.

(** The state [s] with other previous sets. *)
Definition with_prev (pr pw : fd_set) (s : state) : state :=
  mkState (StaticReadEvent s) (StaticWriteEvent s) pr pw
          (maxfd s) (fdtab_state s).

Definition evptr_eqb (p q : evptr) : bool :=
  match p, q with
  | P_StaticRead, P_StaticRead | P_StaticWrite, P_StaticWrite
  | P_PrevRead, P_PrevRead | P_PrevWrite, P_PrevWrite => true
  | _, _ => false
  end.

(** The effect allowed to an accessor on descriptor [d] whose targets are
    the sets [targets]: no event; [maxfd] and the descriptor table kept;
    a set that is no target kept, a target kept but for the bit of [d];
    and the previous sets not read: with other previous sets the accessor
    gives the same value and leaves the same desired sets, and those
    other previous sets. *)
Definition accessor_frame {A} (d : Z) (targets : list evptr) (c : M A) : Prop :=
  forall s,
    trace (c s) = [] /\
    maxfd (final (c s)) = maxfd s /\
    fdtab_state (final (c s)) = fdtab_state s /\
    (forall p,
        if existsb (evptr_eqb p) targets
        then same_but_bit d (load p s) (load p (final (c s)))
        else load p (final (c s)) = load p s) /\
    (forall pr pw,
        c (with_prev pr pw s) =
        (result (c s), with_prev pr pw (final (c s)), [])).

(** The registration call [sync_fd] makes for a descriptor, from its four
    bits and its lifecycle state. *)
Definition ev_mask (sr sw : bool) : Z :=
  Z.lor (if sr then EPOLLIN else 0) (if sw then EPOLLOUT else 0).

Definition ctl_of (st : Z) (pr pw sr sw : bool) (fd : Z) : list event :=
  if Bool.eqb sr pr && Bool.eqb sw pw then []
  else if pr || pw then
    if sr || sw then [Epoll_ctl EPOLL_CTL_MOD fd (ev_mask sr sw)]
    else if st =? FD_STCLOSE then []
         else [Epoll_ctl EPOLL_CTL_DEL fd (ev_mask sr sw)]
  else [Epoll_ctl EPOLL_CTL_ADD fd (ev_mask sr sw)].

Definition expected_ctl (s : state) (fd : Z) : list event :=
  ctl_of (fd_state s fd)
         (fds_isset fd (PrevReadEvent s)) (fds_isset fd (PrevWriteEvent s))
         (fds_isset fd (StaticReadEvent s)) (fds_isset fd (StaticWriteEvent s))
         fd.

(** The previous sets have a word for every descriptor below [maxfd]. *)
Definition prev_covers (s : state) : Prop :=
  maxfd s <= 2 ^ INTBITS * Z.of_nat (length (PrevReadEvent s)) /\
  maxfd s <= 2 ^ INTBITS * Z.of_nat (length (PrevWriteEvent s)).

(** Callbacks that leave the four sets and [maxfd] as they are. *)
Definition cb_keeps_sets (cb : Z -> Z -> state -> state) : Prop :=
  forall dir fd s,
    StaticReadEvent (cb dir fd s) = StaticReadEvent s /\
    StaticWriteEvent (cb dir fd s) = StaticWriteEvent s /\
    PrevReadEvent (cb dir fd s) = PrevReadEvent s /\
    PrevWriteEvent (cb dir fd s) = PrevWriteEvent s /\
    maxfd (cb dir fd s) = maxfd s.

(** Descriptor [d] has no desired interest. *)
Definition no_interest (d : Z) (s : state) : Prop :=
  fds_isset d (StaticReadEvent s) = false /\
  fds_isset d (StaticWriteEvent s) = false.


(** The calls of [fd_loop] for the descriptor [fd] of the word that
    starts at descriptor [base], from the four words read. *)
Definition chunk_ctl (s : state) (ro wo rn wn base fd : Z) : list event :=
  ctl_of (fd_state s fd)
         (Z.testbit ro (fd - base)) (Z.testbit wo (fd - base))
         (Z.testbit rn (fd - base)) (Z.testbit wn (fd - base)) fd.

(** The state after word [fds] of the desired sets was copied. *)
Definition sync_words (fds : Z) (s : state) : state :=
  let s1 := store P_PrevRead
              (set_word (PrevReadEvent s) fds (word_at (StaticReadEvent s) fds)) s in
  store P_PrevWrite
        (set_word (PrevWriteEvent s1) fds (word_at (StaticWriteEvent s1) fds)) s1.

(** Word [i] of a previous set once the words from [fds] on that start
    below [mx] were copied from the desired set. *)
Definition synced_word (fds mx : Z) (desired prev : fd_set) (i : Z) : Z :=
  if (fds <=? i) && (2 ^ INTBITS * i <? mx) && (i <? Z.of_nat (length prev))
  then word_at desired i else word_at prev i.

Definition after_sync (fds : Z) (s s' : state) : Prop :=
  StaticReadEvent s' = StaticReadEvent s /\
  StaticWriteEvent s' = StaticWriteEvent s /\
  maxfd s' = maxfd s /\
  fdtab_state s' = fdtab_state s /\
  length (PrevReadEvent s') = length (PrevReadEvent s) /\
  length (PrevWriteEvent s') = length (PrevWriteEvent s) /\
  (forall i, word_at (PrevReadEvent s') i =
             synced_word fds (maxfd s) (StaticReadEvent s) (PrevReadEvent s) i) /\
  (forall i, word_at (PrevWriteEvent s') i =
             synced_word fds (maxfd s) (StaticWriteEvent s) (PrevWriteEvent s) i).

(** The two tests of the event loop on the reported flags. *)
Definition rd_ready (e : epoll_event) : bool :=
  negb (Z.land (events e) (Z.lor EPOLLIN (Z.lor EPOLLERR EPOLLHUP)) =? 0).

Definition wr_ready (e : epoll_event) : bool :=
  negb (Z.land (events e) (Z.lor EPOLLOUT (Z.lor EPOLLERR EPOLLHUP)) =? 0).

(** A trace of callbacks only, all of them for descriptors in [P]. *)
Definition only_callbacks (P : Z -> Prop) (tr : list event) : Prop :=
  Forall (fun x => exists dir fd, x = Callback dir fd /\ P fd) tr.


(** The registration calls of a trace that are for descriptor [d]. *)
Definition ctl_calls_for (d : Z) (tr : list event) : list event :=
  List.filter (is_ctl_for d) tr.

(** The sets and [maxfd] of two states are the same. *)
Definition same_sets (s s' : state) : Prop :=
  StaticReadEvent s' = StaticReadEvent s /\
  StaticWriteEvent s' = StaticWriteEvent s /\
  PrevReadEvent s' = PrevReadEvent s /\
  PrevWriteEvent s' = PrevWriteEvent s /\
  maxfd s' = maxfd s.

(** ** Concrete states and callbacks for the examples *)

(** Two words per set, nothing wanted, the first forty descriptors
    scanned, sixty-four open descriptors. *)
Definition st_idle : state :=
  mkState [0; 0] [0; 0] [0; 0] [0; 0] 40 (repeat 1 64%nat).

(** Descriptor 5 newly wanted for reading. *)
Definition st_want5 : state := final (__fd_set 5 DIR_RD st_idle).

(** Descriptor 5 wanted and registered for reading and writing. *)
Definition st_rw5 : state :=
  mkState [32; 0] [32; 0] [32; 0] [32; 0] 40 (repeat 1 64%nat).

(** Descriptor 5 pending close and newly wanted for reading. *)
Definition st_closed5 : state :=
  mkState [32; 0] [0; 0] [0; 0] [0; 0] 40 (repeat 1 5%nat ++ [FD_STCLOSE]).




(** Callbacks that do nothing. *)
Definition cb_none : Z -> Z -> state -> state := fun _ _ s => s.

(** A read callback that gives the descriptor up, as on a hangup. *)
Definition cb_rd_closes : Z -> Z -> state -> state :=
  fun dir fd s => if dir =? DIR_RD then final (__fd_clo fd s) else s.

(** ** The static variables, termination and registration
       (lines 37-42, 186-208, 330-347) *)

(** The file's static variables besides the content of the sets:
    [epoll_fd], and for each of the five pointers whether it is non-null. *)
Record globals := mkGlobals {
  epoll_fd : Z;
  epoll_events_p : bool;
  PrevReadEvent_p : bool;
  PrevWriteEvent_p : bool;
  StaticReadEvent_p : bool;
  StaticWriteEvent_p : bool
}.

(** The static variables before anything ran: all zero. *)
Definition globals0 : globals := mkGlobals 0 false false false false false.

(** [epoll_init] again, now with what it leaves in the static variables:
    each pointer takes the value of its [calloc] when that call is reached,
    and keeps it when the allocation is freed on the way out; [epoll_fd]
    is set to 0 from label fail_ee on. *)
Definition epoll_init_g (env : init_env) (p : poller) (g : globals)
  : init_result * globals :=
  let p := mkPoller 0 (pref p) in
  let fd := epoll_create_ret env in
  if fd <? 0 then
    (fail_fd p fd [],
     mkGlobals fd (epoll_events_p g) (PrevReadEvent_p g) (PrevWriteEvent_p g)
               (StaticReadEvent_p g) (StaticWriteEvent_p g))
  else
  let tr := [Acquire R_epoll_fd] in
  let ee := calloc_ok env R_epoll_events in
  if negb ee then
    (fail_ee p fd tr,
     mkGlobals 0 ee (PrevReadEvent_p g) (PrevWriteEvent_p g)
               (StaticReadEvent_p g) (StaticWriteEvent_p g))
  else
  let tr := tr ++ [Acquire R_epoll_events] in
  let pr := calloc_ok env R_PrevReadEvent in
  if negb pr then
    (fail_prevt p fd tr,
     mkGlobals 0 ee pr (PrevWriteEvent_p g)
               (StaticReadEvent_p g) (StaticWriteEvent_p g))
  else
  let tr := tr ++ [Acquire R_PrevReadEvent] in
  let pw := calloc_ok env R_PrevWriteEvent in
  if negb pw then
    (fail_pwevt p fd tr,
     mkGlobals 0 ee pr pw (StaticReadEvent_p g) (StaticWriteEvent_p g))
  else
  let tr := tr ++ [Acquire R_PrevWriteEvent] in
  let sr := calloc_ok env R_StaticReadEvent in
  if negb sr then
    (fail_srevt p fd tr, mkGlobals 0 ee pr pw sr (StaticWriteEvent_p g))
  else
  let tr := tr ++ [Acquire R_StaticReadEvent] in
  let sw := calloc_ok env R_StaticWriteEvent in
  if negb sw then
    (fail_swevt p fd tr, mkGlobals 0 ee pr pw sr sw)
  else
  let tr := tr ++ [Acquire R_StaticWriteEvent] in
  (mkInit 1 p fd tr, mkGlobals fd ee pr pw sr sw).

(** What [epoll_term] does to the outside: [free] of an allocation,
    [close] of a descriptor value. *)
Inductive term_event := Free (r : resource) | Close (fd : Z).

(** [epoll_term(p)]: the trace, the static variables and the poller it
    leaves.  The pointers are freed when non-null and keep their value. *)
Definition epoll_term (g : globals) (p : poller)
  : list term_event * globals * poller :=
  let tr :=
    (if StaticWriteEvent_p g then [Free R_StaticWriteEvent] else []) ++
    (if StaticReadEvent_p g then [Free R_StaticReadEvent] else []) ++
    (if PrevWriteEvent_p g then [Free R_PrevWriteEvent] else []) ++
    (if PrevReadEvent_p g then [Free R_PrevReadEvent] else []) ++
    (if epoll_events_p g then [Free R_epoll_events] else []) ++
    [Close (epoll_fd g)] in
  (tr,
   mkGlobals 0 (epoll_events_p g) (PrevReadEvent_p g) (PrevWriteEvent_p g)
             (StaticReadEvent_p g) (StaticWriteEvent_p g),
   mkPoller 0 0).

(** [struct poller] in full, as [epoll_register] fills it: the name, the
    two members of [poller], and the ten function pointers. *)
Record poller_full := mkPollerFull {
  p_name : string;
  p_core : poller;
  p_init : init_env -> poller -> globals -> init_result * globals;
  p_term : globals -> poller -> list term_event * globals * poller;
  p_poll : (Z -> Z -> state -> state) -> Z -> Z -> list epoll_event -> M unit;
  p_isset : Z -> Z -> M Z;
  p_set : Z -> Z -> M unit;
  p_clr : Z -> Z -> M unit;
  p_rem : Z -> M unit;
  p_clo : Z -> M unit;
  p_cond_s : Z -> Z -> M Z;
  p_cond_c : Z -> Z -> M Z
}.

(** [epoll_register(p)]: every member is overwritten. *)
Definition epoll_register (p : poller_full) : Z * poller_full :=
  (1, mkPollerFull "epoll" (mkPoller 0 300)
                   epoll_init_g epoll_term epoll_poll
                   __fd_isset __fd_set __fd_clr __fd_rem __fd_clo
                   __fd_cond_s __fd_cond_c).

(** ** The variant of the loop body under EPOLL_CTL_MOD_WORKAROUND
       (lines 257-272) *)

Definition sync_fd_workaround (fd count ro wo rn wn : Z) : M unit :=
  let pr := Z.land (Z.shiftr ro count) 1 in
  let pw := Z.land (Z.shiftr wo count) 1 in
  let sr := Z.land (Z.shiftr rn count) 1 in
  let sw := Z.land (Z.shiftr wn count) 1 in
  if Z.lor (Z.lxor sr pr) (Z.lxor sw pw) =? 0 then ret tt
  else
    let ev := mkEvent (Z.lor (if sr =? 0 then 0 else EPOLLIN)
                             (if sw =? 0 then 0 else EPOLLOUT)) fd in
    s <- get ;;
    (if negb (Z.lor pr pw =? 0) && negb (fd_state s fd =? FD_STCLOSE)
     then epoll_ctl EPOLL_CTL_DEL fd ev else ret tt) ;;;
    (if negb (Z.lor sr sw =? 0)
     then epoll_ctl EPOLL_CTL_ADD fd ev else ret tt).

(** ** Further notions used by the statements *)

(** Every word of the four sets fits an [int]. *)
Definition state_words_ok (s : state) : Prop :=
  words_ok (StaticReadEvent s) /\ words_ok (StaticWriteEvent s) /\
  words_ok (PrevReadEvent s) /\ words_ok (PrevWriteEvent s).

Definition is_cb (e : event) : bool :=
  match e with Callback _ _ => true | _ => false end.

(** The flag a direction stands for in a registration. *)
Definition dir_flag (dir : Z) : Z :=
  if dir =? DIR_RD then EPOLLIN else EPOLLOUT.

(** ** The kernel's side of the registrations *)

(** The interest list of the epoll descriptor, as epoll_ctl(2) keeps it:
    for each registered descriptor, its flags. *)
Definition ktab : Type := Z -> option Z.

Definition ktab_set (k : ktab) (fd : Z) (v : option Z) : ktab :=
  fun x => if x =? fd then v else k x.

(** The effect of one event on the interest list: an add registers a
    descriptor that is not registered (and fails otherwise, EEXIST), a
    modify replaces the flags of a registered one and a delete removes a
    registered one (and they fail otherwise, ENOENT); a failed call changes
    nothing, and [epoll_poll] ignores the failure. *)
Definition kernel_ctl (k : ktab) (e : event) : ktab :=
  match e with
  | Epoll_ctl EPOLL_CTL_ADD fd m =>
      match k fd with None => ktab_set k fd (Some m) | Some _ => k end
  | Epoll_ctl EPOLL_CTL_MOD fd m =>
      match k fd with Some _ => ktab_set k fd (Some m) | None => k end
  | Epoll_ctl EPOLL_CTL_DEL fd _ =>
      match k fd with Some _ => ktab_set k fd None | None => k end
  | _ => k
  end.

Definition kernel_run (tr : list event) (k : ktab) : ktab :=
  fold_left kernel_ctl tr k.

(** What the interest list holds for a descriptor whose registration is
    described by a read bit and a write bit. *)
Definition kernel_view (r w : bool) : option Z :=
  if r || w then Some (ev_mask r w) else None.

(** * Proofs *)

(** ** Words and bits *)

Lemma pow_INTBITS : 2 ^ INTBITS = 32.
Proof. reflexivity. Qed.

Lemma fd_bit_range (fd : Z) : 0 <= fd mod 2 ^ INTBITS < 32.
Proof. rewrite pow_INTBITS. apply Z.mod_pos_bound. lia. Qed.

Lemma fd_split (fd : Z) : fd = 32 * fd_elt fd + fd mod 2 ^ INTBITS.
Proof.
  unfold fd_elt. rewrite pow_INTBITS. apply Z.div_mod. lia.
Qed.

Lemma fd_mask_pow (fd : Z) : fd_mask fd = 2 ^ (fd mod 2 ^ INTBITS).
Proof. unfold fd_mask. apply Z.shiftl_1_l. Qed.

Lemma land_pow2 (w k : Z) :
  0 <= k -> Z.land w (2 ^ k) = if Z.testbit w k then 2 ^ k else 0.
Proof.
  intros Hk. apply Z.bits_inj'. intros n Hn.
  rewrite Z.land_spec, Z.pow2_bits_eqb by assumption.
  destruct (Z.eqb_spec k n) as [->|Hne].
  - destruct (Z.testbit w n) eqn:E; simpl.
    + now rewrite Z.pow2_bits_true.
    + now rewrite Z.bits_0.
  - rewrite andb_false_r.
    destruct (Z.testbit w k).
    + now rewrite Z.pow2_bits_false.
    + now rewrite Z.bits_0.
Qed.

Lemma fds_isset_testbit (fd : Z) (ev : fd_set) :
  fds_isset fd ev = Z.testbit (word_at ev (fd_elt fd)) (fd mod 2 ^ INTBITS).
Proof.
  unfold fds_isset. rewrite fd_mask_pow.
  pose proof (fd_bit_range fd) as Hr.
  rewrite land_pow2 by lia.
  destruct (Z.testbit _ _); simpl.
  - destruct (Z.eqb_spec (2 ^ (fd mod 2 ^ INTBITS)) 0) as [E|E]; [|reflexivity].
    pose proof (Z.pow_pos_nonneg 2 (fd mod 2 ^ INTBITS)). lia.
  - reflexivity.
Qed.

Lemma land_shiftr_1 (w c : Z) :
  0 <= c -> Z.land (Z.shiftr w c) 1 = Z.b2z (Z.testbit w c).
Proof.
  intros Hc. change 1 with (Z.ones 1).
  rewrite Z.land_ones by lia. rewrite Z.shiftr_div_pow2 by assumption.
  rewrite Z.testbit_spec' by assumption. reflexivity.
Qed.

Lemma words_differ (a b c d : Z) :
  (Z.lor (Z.lxor a b) (Z.lxor c d) =? 0) = true <-> a = b /\ c = d.
Proof.
  rewrite Z.eqb_eq, Z.lor_eq_0_iff, !Z.lxor_eq_0_iff. reflexivity.
Qed.

Lemma word_at_set_word_ne (ev : fd_set) (i j w : Z) :
  i <> j -> word_at (set_word ev i w) j = word_at ev j.
Proof.
  intros Hne. unfold word_at, set_word.
  destruct (j <? 0) eqn:Hj; [reflexivity|].
  destruct (i <? 0) eqn:Hi; [reflexivity|].
  rewrite list_lookup_insert_ne; [reflexivity|]. lia.
Qed.

Lemma word_at_set_word_eq (ev : fd_set) (i w : Z) :
  0 <= i < Z.of_nat (length ev) -> word_at (set_word ev i w) i = w.
Proof.
  intros Hi. unfold word_at, set_word.
  destruct (Z.ltb_spec i 0); [lia|].
  rewrite list_lookup_insert_eq; [reflexivity|]. lia.
Qed.

Lemma word_at_outside (ev : fd_set) (i : Z) :
  ~ 0 <= i < Z.of_nat (length ev) -> word_at ev i = 0.
Proof.
  intros Hi. unfold word_at.
  destruct (Z.ltb_spec i 0); [reflexivity|].
  rewrite lookup_ge_None_2; [reflexivity|]. lia.
Qed.

Lemma set_word_outside (ev : fd_set) (i w : Z) :
  ~ 0 <= i < Z.of_nat (length ev) -> set_word ev i w = ev.
Proof.
  intros Hi. unfold set_word.
  destruct (Z.ltb_spec i 0); [reflexivity|].
  apply list_insert_ge. lia.
Qed.

Lemma length_set_word (ev : fd_set) (i w : Z) :
  length (set_word ev i w) = length ev.
Proof.
  unfold set_word. destruct (i <? 0); [reflexivity|]. apply length_insert.
Qed.

Lemma fd_in_set_elt (fd : Z) (ev : fd_set) :
  fd_in_set fd ev <-> 0 <= fd_elt fd < Z.of_nat (length ev).
Proof.
  unfold fd_in_set. rewrite pow_INTBITS.
  pose proof (fd_split fd) as Hs. pose proof (fd_bit_range fd) as Hr.
  lia.
Qed.

(** ** The pure set operations *)

Lemma same_but_bit_refl (d : Z) (ev : fd_set) : same_but_bit d ev ev.
Proof. split; [reflexivity|]. intros; reflexivity. Qed.

Lemma same_but_bit_set_word (d : Z) (ev : fd_set) (w : Z) :
  (forall j, 0 <= j -> j <> d mod 2 ^ INTBITS ->
             Z.testbit w j = Z.testbit (word_at ev (fd_elt d)) j) ->
  same_but_bit d ev (set_word ev (fd_elt d) w).
Proof.
  intros Hw. split; [apply length_set_word|].
  intros i j Hj Hor.
  destruct (Z.eq_dec (fd_elt d) i) as [<-|Hne].
  - destruct (Z_lt_dec (fd_elt d) 0) as [Hneg|Hpos];
      [rewrite set_word_outside by lia; reflexivity|].
    destruct (Z_lt_dec (fd_elt d) (Z.of_nat (length ev))) as [Hin|Hout].
    + rewrite word_at_set_word_eq by lia. apply Hw; [assumption|].
      destruct Hor; congruence.
    + rewrite set_word_outside by lia. reflexivity.
  - rewrite word_at_set_word_ne by assumption. reflexivity.
Qed.

Lemma same_but_bit_set (d : Z) (ev : fd_set) : same_but_bit d ev (fds_set d ev).
Proof.
  apply same_but_bit_set_word. intros j Hj Hne.
  rewrite Z.lor_spec, fd_mask_pow, Z.pow2_bits_false by congruence.
  apply orb_false_r.
Qed.

Lemma same_but_bit_clr (d : Z) (ev : fd_set) : same_but_bit d ev (fds_clr d ev).
Proof.
  apply same_but_bit_set_word. intros j Hj Hne.
  rewrite Z.land_spec, Z.lnot_spec, fd_mask_pow, Z.pow2_bits_false
    by congruence.
  apply andb_true_r.
Qed.

Lemma same_but_bit_trans (d : Z) (a b c : fd_set) :
  same_but_bit d a b -> same_but_bit d b c -> same_but_bit d a c.
Proof.
  intros [L1 H1] [L2 H2]. split; [congruence|].
  intros i j Hj Hor. rewrite H2, H1 by assumption. reflexivity.
Qed.

Lemma same_but_bit_isset (d fd : Z) (ev ev' : fd_set) :
  same_but_bit d ev ev' -> fd <> d -> fds_isset fd ev' = fds_isset fd ev.
Proof.
  intros [_ H] Hne. rewrite !fds_isset_testbit.
  pose proof (fd_bit_range fd) as Hr.
  apply H; [lia|].
  destruct (Z.eq_dec (fd_elt fd) (fd_elt d)) as [E|E]; [right|left; exact E].
  intros E2. apply Hne.
  rewrite (fd_split fd), (fd_split d). congruence.
Qed.

Lemma same_but_bit_word (d i : Z) (ev ev' : fd_set) :
  same_but_bit d ev ev' -> i <> fd_elt d -> word_at ev' i = word_at ev i.
Proof.
  intros [_ H] Hne. apply Z.bits_inj'. intros n Hn. apply H; auto.
Qed.

Lemma fds_isset_set (fd : Z) (ev : fd_set) :
  fd_in_set fd ev -> fds_isset fd (fds_set fd ev) = true.
Proof.
  intros Hin. apply fd_in_set_elt in Hin.
  rewrite fds_isset_testbit. unfold fds_set.
  rewrite word_at_set_word_eq by assumption.
  pose proof (fd_bit_range fd).
  rewrite Z.lor_spec, fd_mask_pow, Z.pow2_bits_true by lia.
  apply orb_true_r.
Qed.

Lemma fds_isset_clr (fd : Z) (ev : fd_set) :
  fds_isset fd (fds_clr fd ev) = false.
Proof.
  rewrite fds_isset_testbit. unfold fds_clr.
  pose proof (fd_bit_range fd).
  destruct (Z_lt_dec (fd_elt fd) 0) as [Hneg|Hpos].
  - rewrite set_word_outside by lia. rewrite word_at_outside by lia.
    apply Z.bits_0.
  - destruct (Z_lt_dec (fd_elt fd) (Z.of_nat (length ev))) as [Hin|Hout].
    + rewrite word_at_set_word_eq by lia.
      rewrite Z.land_spec, Z.lnot_spec, fd_mask_pow, Z.pow2_bits_true by lia.
      apply andb_false_r.
    + rewrite set_word_outside by lia. rewrite word_at_outside by lia.
      apply Z.bits_0.
Qed.

Lemma fds_isset_outside (fd : Z) (ev : fd_set) :
  ~ fd_in_set fd ev -> fds_isset fd ev = false.
Proof.
  intros Hout. rewrite fd_in_set_elt in Hout.
  rewrite fds_isset_testbit, word_at_outside by assumption. apply Z.bits_0.
Qed.

(** ** The accessors *)

Lemma load_store_same (p : evptr) (v : fd_set) (s : state) :
  load p (store p v s) = v.
Proof. destruct p; reflexivity. Qed.

Lemma load_store_other (p q : evptr) (v : fd_set) (s : state) :
  evptr_eqb q p = false -> load q (store p v s) = load q s.
Proof. destruct p, q; simpl; intros E; try discriminate; reflexivity. Qed.

Lemma store_load (p : evptr) (s : state) : store p (load p s) s = s.
Proof. destruct p, s; reflexivity. Qed.

Lemma dir_ev_desired (dir : Z) :
  dir_ev dir = P_StaticRead \/ dir_ev dir = P_StaticWrite.
Proof. unfold dir_ev. destruct (dir =? DIR_RD); auto. Qed.

(** Storing into a desired set commutes with replacing the previous sets. *)
Lemma store_with_prev (p : evptr) (v pr pw : fd_set) (s : state) :
  p = P_StaticRead \/ p = P_StaticWrite ->
  store p v (with_prev pr pw s) = with_prev pr pw (store p v s).
Proof. intros [-> | ->]; reflexivity. Qed.

Lemma load_with_prev (p : evptr) (pr pw : fd_set) (s : state) :
  p = P_StaticRead \/ p = P_StaticWrite ->
  load p (with_prev pr pw s) = load p s.
Proof. intros [-> | ->]; reflexivity. Qed.

Lemma frame_one_target {A} (d : Z) (p : evptr) (c : M A) :
  p = P_StaticRead \/ p = P_StaticWrite ->
  (forall s, trace (c s) = [] /\
             exists v, final (c s) = store p v s /\ same_but_bit d (load p s) v) ->
  (forall pr pw s, result (c (with_prev pr pw s)) = result (c s) /\
                   final (c (with_prev pr pw s)) = with_prev pr pw (final (c s))) ->
  accessor_frame d [p] c.
Proof.
  intros Hp Hc Hprev s. destruct (Hc s) as [Htr [v [Hfin Hsame]]].
  split; [exact Htr|]. rewrite Hfin.
  split; [destruct p; reflexivity|].
  split; [destruct p; reflexivity|].
  split.
  - intros q. simpl. rewrite orb_false_r.
    destruct (evptr_eqb q p) eqn:E.
    + assert (q = p) as -> by (destruct p, q; simpl in E; congruence).
      rewrite load_store_same. exact Hsame.
    + apply load_store_other. exact E.
  - intros pr pw. destruct (Hprev pr pw s) as [Hr Hf].
    destruct (Hc (with_prev pr pw s)) as [Htr' _].
    destruct (c (with_prev pr pw s)) as [[a s'] tr'] eqn:E.
    unfold result, final, trace in *. simpl in *. rewrite <- Hfin. congruence.
Qed.

Lemma frame_isset (d dir : Z) : accessor_frame d [dir_ev dir] (__fd_isset d dir).
Proof.
  pose proof (dir_ev_desired dir) as Hp.
  apply frame_one_target; [exact Hp| |].
  - intros s. split; [reflexivity|]. exists (load (dir_ev dir) s).
    split; [symmetry; apply store_load | apply same_but_bit_refl].
  - intros pr pw s. unfold __fd_isset, FD_ISSET, bind, get, ret, result, final.
    simpl. rewrite load_with_prev by exact Hp. split; reflexivity.
Qed.

Lemma frame_set (d dir : Z) : accessor_frame d [dir_ev dir] (__fd_set d dir).
Proof.
  pose proof (dir_ev_desired dir) as Hp.
  apply frame_one_target; [exact Hp| |].
  - intros s. split; [reflexivity|]. eexists. split; [reflexivity|].
    apply same_but_bit_set.
  - intros pr pw s. unfold __fd_set, FD_SET, modify, result, final. simpl.
    rewrite load_with_prev, store_with_prev by exact Hp. split; reflexivity.
Qed.

Lemma frame_clr (d dir : Z) : accessor_frame d [dir_ev dir] (__fd_clr d dir).
Proof.
  pose proof (dir_ev_desired dir) as Hp.
  apply frame_one_target; [exact Hp| |].
  - intros s. split; [reflexivity|]. eexists. split; [reflexivity|].
    apply same_but_bit_clr.
  - intros pr pw s. unfold __fd_clr, FD_CLR, modify, result, final. simpl.
    rewrite load_with_prev, store_with_prev by exact Hp. split; reflexivity.
Qed.

(** What the two conditional accessors compute. *)
Lemma cond_s_eq (fd dir : Z) (s : state) :
  __fd_cond_s fd dir s =
  if fds_isset fd (load (dir_ev dir) s) then (0, s, [])
  else (1, store (dir_ev dir) (fds_set fd (load (dir_ev dir) s)) s, []).
Proof.
  unfold __fd_cond_s, FD_ISSET, FD_SET, bind, get, ret, modify. simpl.
  destruct (fds_isset fd (load (dir_ev dir) s)); reflexivity.
Qed.

Lemma cond_c_eq (fd dir : Z) (s : state) :
  __fd_cond_c fd dir s =
  if fds_isset fd (load (dir_ev dir) s)
  then (1, store (dir_ev dir) (fds_clr fd (load (dir_ev dir) s)) s, [])
  else (0, s, []).
Proof.
  unfold __fd_cond_c, FD_ISSET, FD_CLR, bind, get, ret, modify. simpl.
  destruct (fds_isset fd (load (dir_ev dir) s)); reflexivity.
Qed.

Lemma frame_cond_s (d dir : Z) : accessor_frame d [dir_ev dir] (__fd_cond_s d dir).
Proof.
  pose proof (dir_ev_desired dir) as Hp.
  apply frame_one_target; [exact Hp| |].
  - intros s. rewrite cond_s_eq.
    destruct (fds_isset d (load (dir_ev dir) s)).
    + split; [reflexivity|]. exists (load (dir_ev dir) s).
      split; [symmetry; apply store_load | apply same_but_bit_refl].
    + split; [reflexivity|]. eexists. split; [reflexivity|].
      apply same_but_bit_set.
  - intros pr pw s. rewrite !cond_s_eq, load_with_prev by exact Hp.
    destruct (fds_isset d (load (dir_ev dir) s)).
    + split; reflexivity.
    + unfold result, final. simpl. rewrite store_with_prev by exact Hp.
      split; reflexivity.
Qed.

Lemma frame_cond_c (d dir : Z) : accessor_frame d [dir_ev dir] (__fd_cond_c d dir).
Proof.
  pose proof (dir_ev_desired dir) as Hp.
  apply frame_one_target; [exact Hp| |].
  - intros s. rewrite cond_c_eq.
    destruct (fds_isset d (load (dir_ev dir) s)).
    + split; [reflexivity|]. eexists. split; [reflexivity|].
      apply same_but_bit_clr.
    + split; [reflexivity|]. exists (load (dir_ev dir) s).
      split; [symmetry; apply store_load | apply same_but_bit_refl].
  - intros pr pw s. rewrite !cond_c_eq, load_with_prev by exact Hp.
    destruct (fds_isset d (load (dir_ev dir) s)).
    + unfold result, final. simpl. rewrite store_with_prev by exact Hp.
      split; reflexivity.
    + split; reflexivity.
Qed.

Lemma frame_rem (d : Z) :
  accessor_frame d [P_StaticRead; P_StaticWrite] (__fd_rem d).
Proof.
  intros s. split; [reflexivity|]. split; [reflexivity|].
  split; [reflexivity|]. split.
  - intros p. destruct p; simpl; try reflexivity; apply same_but_bit_clr.
  - intros pr pw. reflexivity.
Qed.

(** C8. Each of the accessors [__fd_isset], [__fd_set], [__fd_clr],
    [__fd_cond_s], [__fd_cond_c] (on the desired set of the direction) and
    [__fd_rem] (on both desired sets) emits no kernel call, keeps the two
    previous sets, [maxfd] and the descriptor table, keeps the desired set
    it does not target, changes at most the bit of [d] in a set it does
    target, and does not read the previous sets: with any other previous
    sets it returns the same value and leaves the same desired sets.  The
    test changes nothing at all. *)
Theorem accessors_frame (d dir : Z) :
  accessor_frame d [dir_ev dir] (__fd_isset d dir) /\
  (forall s, final (__fd_isset d dir s) = s) /\
  accessor_frame d [dir_ev dir] (__fd_set d dir) /\
  accessor_frame d [dir_ev dir] (__fd_clr d dir) /\
  accessor_frame d [dir_ev dir] (__fd_cond_s d dir) /\
  accessor_frame d [dir_ev dir] (__fd_cond_c d dir) /\
  accessor_frame d [P_StaticRead; P_StaticWrite] (__fd_rem d).
Proof.
  split; [apply frame_isset|].
  split; [reflexivity|].
  split; [apply frame_set|].
  split; [apply frame_clr|].
  split; [apply frame_cond_s|].
  split; [apply frame_cond_c|].
  apply frame_rem.
Qed.

(** C6. For a descriptor [fd] within the set of direction [dir]:
    when the desired bit is set, [__fd_cond_s] returns 0 and leaves the
    whole state unchanged, and [__fd_cond_c] returns 1 and leaves the bit
    clear; when the bit is clear, [__fd_cond_s] returns 1 and leaves the
    bit set, and [__fd_cond_c] returns 0 and leaves the whole state
    unchanged.  Neither emits an event. *)
Theorem cond_accessors (fd dir : Z) (s : state) :
  fd_in_set fd (load (dir_ev dir) s) ->
  let ev := dir_ev dir in
  let rs := __fd_cond_s fd dir s in
  let rc := __fd_cond_c fd dir s in
  if fds_isset fd (load ev s)
  then rs = (0, s, []) /\
       result rc = 1 /\ trace rc = [] /\
       fds_isset fd (load ev (final rc)) = false
  else result rs = 1 /\ trace rs = [] /\
       fds_isset fd (load ev (final rs)) = true /\
       rc = (0, s, []).
Proof.
  intros Hin ev rs rc. subst ev rs rc. rewrite cond_s_eq, cond_c_eq.
  destruct (fds_isset fd (load (dir_ev dir) s)) eqn:E.
  - split; [reflexivity|]. split; [reflexivity|]. split; [reflexivity|].
    unfold final. simpl. rewrite load_store_same. apply fds_isset_clr.
  - split; [reflexivity|]. split; [reflexivity|]. split; [|reflexivity].
    unfold final. simpl. rewrite load_store_same. apply fds_isset_set.
    exact Hin.
Qed.

(** ** Initialisation *)

(** C5. Whatever the system answers: if every acquisition succeeds,
    [epoll_init] returns 1 with the six resources (the epoll descriptor and
    the five allocations) acquired in order, none released, all held, and
    the preference untouched; otherwise it returns 0 with the preference
    set to 0, and its trace is the acquisition of the resources obtained
    before the first failure followed by their release in the reverse
    order, so that nothing is held at the end and nothing else was
    released. *)
Theorem epoll_init_teardown (env : init_env) (p : poller) :
  let r := epoll_init env p in
  let got := acquired_upto env all_resources in
  if forallb (acquires env) all_resources
  then init_ret r = 1 /\
       init_trace r = map Acquire all_resources /\
       held (init_trace r) [] = all_resources /\
       pref (init_poller r) = pref p
  else init_ret r = 0 /\
       pref (init_poller r) = 0 /\
       init_trace r = map Acquire got ++ map Release (rev got) /\
       held (init_trace r) [] = [].
Proof.
  destruct env as [efd ok]. unfold epoll_init. simpl.
  destruct (efd <? 0); simpl.
  { repeat split. }
  destruct (ok R_epoll_events); simpl; [|repeat split].
  destruct (ok R_PrevReadEvent); simpl; [|repeat split].
  destruct (ok R_PrevWriteEvent); simpl; [|repeat split].
  destruct (ok R_StaticReadEvent); simpl; [|repeat split].
  destruct (ok R_StaticWriteEvent); simpl; repeat split.
Qed.

(** ** The reconciliation phase *)

Lemma sync_fd_spec (fd count ro wo rn wn : Z) (s : state) :
  0 <= count ->
  sync_fd fd count ro wo rn wn s =
  (tt, s, ctl_of (fd_state s fd) (Z.testbit ro count) (Z.testbit wo count)
                 (Z.testbit rn count) (Z.testbit wn count) fd).
Proof.
  intros Hc. unfold sync_fd, ctl_of. rewrite !land_shiftr_1 by assumption.
  destruct (Z.testbit ro count), (Z.testbit wo count),
           (Z.testbit rn count), (Z.testbit wn count);
    simpl; try reflexivity;
    unfold bind, get, epoll_ctl, emit, ret; simpl;
    destruct (fd_state s fd =? FD_STCLOSE); reflexivity.
Qed.

Lemma fd_loop_spec (n : nat) (ro wo rn wn base : Z) :
  forall count fd s,
    0 <= count -> fd = base + count ->
    fd_loop n count fd ro wo rn wn s =
    (tt, s, flat_map (chunk_ctl s ro wo rn wn base)
                     (seqZ fd (Z.min (Z.of_nat n)
                                     (Z.min (32 - count) (maxfd s - fd))))).
Proof.
  induction n as [|n IH]; intros count fd s Hc Hfd.
  - simpl. rewrite seqZ_nil by lia. reflexivity.
  - cbn [fd_loop]. unfold bind at 1. cbn [get fst snd].
    change (Z.shiftl 1 INTBITS) with 32.
    destruct (Z.ltb_spec count 32) as [H1|H1]; cbn [andb].
    + destruct (Z.ltb_spec fd (maxfd s)) as [H2|H2].
      * unfold bind. rewrite sync_fd_spec by assumption. cbn [fst snd].
        rewrite IH by lia. cbn [fst snd app].
        rewrite (seqZ_cons fd) by lia. cbn [flat_map].
        unfold chunk_ctl at 2. replace (fd - base) with count by lia.
        replace (Z.succ fd) with (fd + 1) by lia.
        replace (Z.pred (Z.min (Z.of_nat (S n))
                               (Z.min (32 - count) (maxfd s - fd))))
          with (Z.min (Z.of_nat n)
                      (Z.min (32 - (count + 1)) (maxfd s - (fd + 1)))) by lia.
        reflexivity.
      * rewrite seqZ_nil by lia. reflexivity.
    + rewrite seqZ_nil by lia. reflexivity.
Qed.

Lemma flat_map_ext_elem {A B} (f g : A -> list B) (l : list A) :
  (forall x, x ∈ l -> f x = g x) -> flat_map f l = flat_map g l.
Proof.
  induction l as [|a l IH]; intros H; [reflexivity|].
  simpl. rewrite (H a) by constructor.
  rewrite IH; [reflexivity|]. intros x Hx. apply H. now constructor.
Qed.

Lemma flat_map_nil_elem {A B} (f : A -> list B) (l : list A) :
  (forall x, x ∈ l -> f x = []) -> flat_map f l = [].
Proof.
  induction l as [|a l IH]; intros H; [reflexivity|].
  simpl. rewrite (H a) by constructor.
  apply IH. intros x Hx. apply H. now constructor.
Qed.

Lemma set_word_id (ev : fd_set) (i : Z) : set_word ev i (word_at ev i) = ev.
Proof.
  unfold set_word, word_at. destruct (i <? 0); [reflexivity|].
  apply list_insert_id'. intros Hlt.
  destruct (lookup_lt_is_Some_2 ev (Z.to_nat i) Hlt) as [x Hx].
  rewrite Hx. reflexivity.
Qed.

(** Within the word [fds], the bits read from the words are the bits of
    the sets. *)
Lemma chunk_ctl_expected (s : state) (fds fd : Z) :
  32 * fds <= fd < 32 * fds + 32 ->
  chunk_ctl s (word_at (PrevReadEvent s) fds) (word_at (PrevWriteEvent s) fds)
              (word_at (StaticReadEvent s) fds) (word_at (StaticWriteEvent s) fds)
              (32 * fds) fd
  = expected_ctl s fd.
Proof.
  intros Hfd. unfold chunk_ctl, expected_ctl. rewrite !fds_isset_testbit.
  assert (fd_elt fd = fds) as ->.
  { unfold fd_elt. rewrite pow_INTBITS. symmetry.
    apply (Z.div_unique fd 32 fds (fd - 32 * fds)); lia. }
  assert (fd mod 2 ^ INTBITS = fd - 32 * fds) as ->.
  { rewrite pow_INTBITS. symmetry.
    apply (Z.mod_unique fd 32 fds (fd - 32 * fds)); lia. }
  reflexivity.
Qed.

Lemma expected_ctl_synced (s : state) (fd : Z) :
  fds_isset fd (PrevReadEvent s) = fds_isset fd (StaticReadEvent s) ->
  fds_isset fd (PrevWriteEvent s) = fds_isset fd (StaticWriteEvent s) ->
  expected_ctl s fd = [].
Proof.
  intros Hr Hw. unfold expected_ctl, ctl_of. rewrite Hr, Hw.
  rewrite !eqb_reflx. reflexivity.
Qed.

Lemma sync_chunk_spec (fds : Z) (s : state) :
  0 <= fds ->
  sync_chunk fds s =
  (tt, sync_words fds s,
   flat_map (expected_ctl s) (seqZ (32 * fds) (Z.min 32 (maxfd s - 32 * fds)))).
Proof.
  intros Hfds. unfold sync_chunk. unfold bind at 1. cbn [get fst snd].
  destruct (Z.lor _ _ =? 0) eqn:E; cbn [negb].
  - apply words_differ in E. destruct E as [Er Ew].
    unfold ret, sync_words. cbn [load store PrevWriteEvent StaticWriteEvent
                                   PrevReadEvent StaticReadEvent].
    rewrite <- Er, <- Ew, !set_word_id.
    rewrite flat_map_nil_elem.
    + destruct s; reflexivity.
    + intros fd Hfd. apply elem_of_seqZ in Hfd.
      apply expected_ctl_synced; rewrite !fds_isset_testbit.
      * assert (fd_elt fd = fds) as ->; [|congruence].
        unfold fd_elt. rewrite pow_INTBITS. symmetry.
        apply (Z.div_unique fd 32 fds (fd - 32 * fds)); lia.
      * assert (fd_elt fd = fds) as ->; [|congruence].
        unfold fd_elt. rewrite pow_INTBITS. symmetry.
        apply (Z.div_unique fd 32 fds (fd - 32 * fds)); lia.
  - unfold bind. change (Z.to_nat (Z.shiftl 1 INTBITS)) with 32%nat.
    rewrite (Z.shiftl_mul_pow2 fds) by (unfold INTBITS; lia).
    rewrite pow_INTBITS.
    rewrite (fd_loop_spec _ _ _ _ _ (fds * 32)) by lia.
    cbn [fst snd modify app]. rewrite app_nil_r.
    change (Z.of_nat 32) with 32.
    replace (fds * 32) with (32 * fds) by lia.
    replace (Z.min 32 (Z.min (32 - 0) (maxfd s - 32 * fds)))
      with (Z.min 32 (maxfd s - 32 * fds)) by lia.
    f_equal.
    apply flat_map_ext_elem. intros fd Hfd. apply elem_of_seqZ in Hfd.
    apply chunk_ctl_expected. lia.
Qed.

Lemma expected_ctl_sync_words (fds fd : Z) (s : state) :
  fd_elt fd <> fds -> expected_ctl (sync_words fds s) fd = expected_ctl s fd.
Proof.
  intros Hne. unfold expected_ctl, sync_words, fd_state. simpl.
  rewrite !fds_isset_testbit, !word_at_set_word_ne by congruence.
  reflexivity.
Qed.

Lemma synced_word_step (fds mx : Z) (desired prev : fd_set) (i : Z) :
  2 ^ INTBITS * fds < mx ->
  synced_word (fds + 1) mx desired (set_word prev fds (word_at desired fds)) i
  = synced_word fds mx desired prev i.
Proof.
  intros Hlt. unfold synced_word. rewrite length_set_word.
  destruct (Z.eq_dec i fds) as [->|Hne].
  - destruct (Z.leb_spec (fds + 1) fds) as [H|_]; [lia|]. cbn [andb].
    destruct (Z.leb_spec fds fds) as [_|H]; [|lia].
    destruct (Z.ltb_spec (2 ^ INTBITS * fds) mx) as [_|H]; [|lia]. cbn [andb].
    destruct (Z.ltb_spec fds (Z.of_nat (length prev))) as [Hin|Hout].
    + destruct (Z_lt_dec fds 0) as [Hneg|Hpos].
      * rewrite set_word_outside by lia. rewrite !word_at_outside by lia.
        reflexivity.
      * apply word_at_set_word_eq. lia.
    + rewrite set_word_outside by lia. reflexivity.
  - rewrite word_at_set_word_ne by congruence.
    destruct (Z.leb_spec (fds + 1) i), (Z.leb_spec fds i);
      try lia; reflexivity.
Qed.

Lemma after_sync_done (fds : Z) (s : state) :
  maxfd s <= 2 ^ INTBITS * fds -> 0 <= fds -> after_sync fds s s.
Proof.
  intros Hge Hfds. unfold after_sync.
  repeat (split; [reflexivity|]).
  split; intros i; unfold synced_word;
    destruct (Z.leb_spec fds i) as [H1|H1]; cbn [andb]; try reflexivity;
    destruct (Z.ltb_spec (2 ^ INTBITS * i) (maxfd s)) as [H2|H2];
    try reflexivity; rewrite pow_INTBITS in *; lia.
Qed.

Lemma chunk_loop_S (n : nat) (fds : Z) (s : state) :
  chunk_loop (S n) fds s =
  if Z.shiftl fds INTBITS <? maxfd s then
    let r1 := sync_chunk fds s in
    let r2 := chunk_loop n (fds + 1) (final r1) in
    (tt, final r2, trace r1 ++ trace r2)
  else (tt, s, []).
Proof.
  cbn [chunk_loop]. unfold bind, get, final, trace. cbn [fst snd].
  destruct (Z.shiftl fds INTBITS <? maxfd s); [|reflexivity].
  cbn [app]. destruct (chunk_loop n _ _) as [[[] s2] t2]. reflexivity.
Qed.

Lemma chunk_loop_spec (n : nat) :
  forall fds s,
    0 <= fds -> maxfd s <= 32 * (fds + Z.of_nat n) ->
    trace (chunk_loop n fds s) =
      flat_map (expected_ctl s) (seqZ (32 * fds) (maxfd s - 32 * fds)) /\
    after_sync fds s (final (chunk_loop n fds s)).
Proof.
  induction n as [|n IH]; intros fds s Hfds Hfuel.
  - simpl. rewrite seqZ_nil by lia. split; [reflexivity|].
    apply (after_sync_done fds s); [rewrite pow_INTBITS; lia | assumption].
  - rewrite chunk_loop_S.
    rewrite (Z.shiftl_mul_pow2 fds) by (unfold INTBITS; lia).
    rewrite pow_INTBITS.
    destruct (Z.ltb_spec (fds * 32) (maxfd s)) as [Hlt|Hge].
    + rewrite sync_chunk_spec by assumption.
      destruct (IH (fds + 1) (sync_words fds s)) as [Htr Hst];
        [lia | simpl; lia |].
      unfold trace, final in *. cbn [fst snd app]. split.
      * rewrite Htr.
        replace (maxfd s - 32 * fds)
          with (Z.min 32 (maxfd s - 32 * fds)
                + (maxfd s - 32 * fds - Z.min 32 (maxfd s - 32 * fds))) at 2
          by lia.
        rewrite seqZ_app by lia. rewrite flat_map_app. f_equal.
        destruct (Z_lt_dec (maxfd s - 32 * fds) 32) as [Hlast|Hmore].
        -- rewrite !seqZ_nil by (simpl; lia). reflexivity.
        -- replace (Z.min 32 (maxfd s - 32 * fds)) with 32 by lia.
           replace (32 * fds + 32) with (32 * (fds + 1)) by lia.
           replace (maxfd (sync_words fds s)) with (maxfd s) by reflexivity.
           replace (maxfd s - 32 * fds - 32)
             with (maxfd s - 32 * (fds + 1)) by lia.
           apply flat_map_ext_elem. intros fd Hfd. apply elem_of_seqZ in Hfd.
           apply expected_ctl_sync_words.
           intros E. pose proof (fd_split fd). pose proof (fd_bit_range fd).
           lia.
      * destruct Hst as (H1 & H2 & H3 & H4 & H5 & H6 & H7 & H8).
        unfold after_sync.
        split; [rewrite H1; reflexivity|].
        split; [rewrite H2; reflexivity|].
        split; [rewrite H3; reflexivity|].
        split; [rewrite H4; reflexivity|].
        split; [rewrite H5; simpl; apply length_set_word|].
        split; [rewrite H6; simpl; apply length_set_word|].
        split; intros i.
        -- rewrite H7. simpl. apply synced_word_step.
           rewrite pow_INTBITS. lia.
        -- rewrite H8. simpl. apply synced_word_step.
           rewrite pow_INTBITS. lia.
    + rewrite seqZ_nil by lia. split; [reflexivity|].
      apply (after_sync_done fds s); [rewrite pow_INTBITS; lia | assumption].
Qed.

Lemma reconcile_spec (s : state) :
  trace (reconcile s) = flat_map (expected_ctl s) (seqZ 0 (maxfd s)) /\
  after_sync 0 s (final (reconcile s)).
Proof.
  unfold reconcile. unfold bind. cbn [get fst snd].
  destruct (chunk_loop_spec (Z.to_nat (maxfd s)) 0 s) as [Htr Hst]; [lia|lia|].
  unfold trace, final in *. cbn [fst snd app]. split; [|exact Hst].
  rewrite Htr. f_equal. f_equal. lia.
Qed.

(** ** The wait and dispatch phase *)

Lemma dispatch_event_eq (cb : Z -> Z -> state -> state)
      (e : epoll_event) (s : state) :
  dispatch_event cb e s =
  let fd := data_fd e in
  if fds_isset fd (StaticReadEvent s) && (fd_state s fd =? FD_STCLOSE)
  then (tt, s, [])
  else
    let fire_rd := fds_isset fd (StaticReadEvent s) && rd_ready e in
    let s1 := if fire_rd then cb DIR_RD fd s else s in
    let t1 := if fire_rd then [Callback DIR_RD fd] else [] in
    if fds_isset fd (StaticWriteEvent s1)
       && negb (fd_state s1 fd =? FD_STCLOSE) && wr_ready e
    then (tt, cb DIR_WR fd s1, t1 ++ [Callback DIR_WR fd])
    else (tt, s1, t1).
Proof.
  unfold dispatch_event, FD_ISSET, call_cb, rd_ready, wr_ready.
  unfold bind, get, ret. cbn [fst snd load].
  destruct (fds_isset (data_fd e) (StaticReadEvent s)); cbn [fst snd andb].
  - destruct (fd_state s (data_fd e) =? FD_STCLOSE); cbn [fst snd];
      [reflexivity|].
    destruct (negb (Z.land (events e) (Z.lor EPOLLIN (Z.lor EPOLLERR EPOLLHUP)) =? 0));
      cbn [fst snd app].
    + destruct (fds_isset (data_fd e) (StaticWriteEvent (cb DIR_RD (data_fd e) s)));
        cbn [fst snd andb app]; [|reflexivity].
      destruct (fd_state (cb DIR_RD (data_fd e) s) (data_fd e) =? FD_STCLOSE);
        cbn [fst snd negb andb app]; [reflexivity|].
      destruct (negb (Z.land (events e) (Z.lor EPOLLOUT (Z.lor EPOLLERR EPOLLHUP)) =? 0));
        reflexivity.
    + destruct (fds_isset (data_fd e) (StaticWriteEvent s));
        cbn [fst snd andb app]; [|reflexivity].
      destruct (fd_state s (data_fd e) =? FD_STCLOSE);
        cbn [fst snd negb andb app]; [reflexivity|].
      destruct (negb (Z.land (events e) (Z.lor EPOLLOUT (Z.lor EPOLLERR EPOLLHUP)) =? 0));
        reflexivity.
  - destruct (fds_isset (data_fd e) (StaticWriteEvent s));
      cbn [fst snd andb app]; [|reflexivity].
    destruct (fd_state s (data_fd e) =? FD_STCLOSE);
      cbn [fst snd negb andb app]; [reflexivity|].
    destruct (negb (Z.land (events e) (Z.lor EPOLLOUT (Z.lor EPOLLERR EPOLLHUP)) =? 0));
      reflexivity.
Qed.

Lemma dispatch_loop_cons (cb : Z -> Z -> state -> state)
      (count status : Z) (e : epoll_event) (rest : list epoll_event) (s : state) :
  dispatch_loop cb count status (e :: rest) s =
  if count <? status then
    let r1 := dispatch_event cb e s in
    let r2 := dispatch_loop cb (count + 1) status rest (final r1) in
    (tt, final r2, trace r1 ++ trace r2)
  else (tt, s, []).
Proof.
  cbn [dispatch_loop]. destruct (count <? status); [|reflexivity].
  unfold bind, final, trace. cbn [fst snd].
  destruct (dispatch_loop cb _ _ _ _) as [[[] s2] t2]. reflexivity.
Qed.

Lemma epoll_poll_eq (cb : Z -> Z -> state -> state) (wait_time status : Z)
      (evs : list epoll_event) (s : state) :
  epoll_poll cb wait_time status evs s =
  let r1 := reconcile s in
  let r2 := dispatch_loop cb 0 status evs (final r1) in
  (tt, final r2,
   trace r1 ++ [Epoll_wait (maxfd (final r1)) wait_time; Tv_now] ++ trace r2).
Proof.
  unfold epoll_poll, bind, get, emit, final, trace. cbn [fst snd app].
  destruct (dispatch_loop cb _ _ _ _) as [[[] s2] t2]. reflexivity.
Qed.

Lemma only_callbacks_app (P : Z -> Prop) (t1 t2 : list event) :
  only_callbacks P t1 -> only_callbacks P t2 -> only_callbacks P (t1 ++ t2).
Proof. unfold only_callbacks. intros. apply Forall_app; auto. Qed.

Lemma only_callbacks_weaken (P Q : Z -> Prop) (tr : list event) :
  (forall fd, P fd -> Q fd) -> only_callbacks P tr -> only_callbacks Q tr.
Proof.
  intros HPQ. unfold only_callbacks. intros H.
  eapply Forall_impl; [exact H|].
  intros x (dir & fd & -> & HP). eauto.
Qed.

Lemma only_callbacks_ctl (P : Z -> Prop) (tr : list event) :
  only_callbacks P tr -> ctl_calls tr = [].
Proof.
  unfold only_callbacks, ctl_calls. induction 1 as [|x l Hx _ IH]; [reflexivity|].
  destruct Hx as (dir & fd & -> & _). simpl. exact IH.
Qed.

Lemma only_callbacks_ctl_for (P : Z -> Prop) (d : Z) (tr : list event) :
  only_callbacks P tr -> ctl_calls_for d tr = [].
Proof.
  unfold only_callbacks, ctl_calls_for.
  induction 1 as [|x l Hx _ IH]; [reflexivity|].
  destruct Hx as (dir & fd & -> & _). simpl. exact IH.
Qed.


Lemma dispatch_event_callbacks (cb : Z -> Z -> state -> state)
      (e : epoll_event) (s : state) :
  only_callbacks (fun fd => fd = data_fd e) (trace (dispatch_event cb e s)).
Proof.
  rewrite dispatch_event_eq. cbv zeta. unfold only_callbacks.
  destruct (_ && (fd_state s _ =? _)); [constructor|].
  destruct (_ && rd_ready e);
    match goal with |- context [if ?b then _ else _] => destruct b end;
    unfold trace; cbn [snd app]; repeat constructor; eauto.
Qed.

Lemma dispatch_loop_callbacks (cb : Z -> Z -> state -> state)
      (evs : list epoll_event) :
  forall count status s,
    only_callbacks (fun _ => True) (trace (dispatch_loop cb count status evs s)).
Proof.
  induction evs as [|e rest IH]; intros count status s.
  - constructor.
  - rewrite dispatch_loop_cons. destruct (count <? status); [|constructor].
    cbv zeta. unfold trace at 1. cbn [snd].
    apply only_callbacks_app; [|apply IH].
    eapply only_callbacks_weaken; [|apply dispatch_event_callbacks]. auto.
Qed.

Lemma ctl_calls_expected (s : state) (l : list Z) :
  ctl_calls (flat_map (expected_ctl s) l) = flat_map (expected_ctl s) l.
Proof.
  unfold ctl_calls. induction l as [|a l IH]; [reflexivity|].
  cbn [flat_map]. rewrite List.filter_app, IH. f_equal.
  unfold expected_ctl, ctl_of.
  repeat match goal with |- context [if ?b then _ else _] => destruct b end;
    reflexivity.
Qed.

Lemma ctl_calls_for_expected (s : state) (d fd : Z) :
  ctl_calls_for d (expected_ctl s fd) = if fd =? d then expected_ctl s fd else [].
Proof.
  unfold ctl_calls_for, expected_ctl, ctl_of.
  destruct (Z.eqb_spec fd d) as [->|Hne].
  - repeat match goal with |- context [if ?b then _ else _] => destruct b end;
      simpl; rewrite ?Z.eqb_refl; reflexivity.
  - apply Z.eqb_neq in Hne.
    repeat match goal with |- context [if ?b then _ else _] => destruct b end;
      simpl; rewrite ?Hne; reflexivity.
Qed.

Lemma ctl_calls_for_flat_map (s : state) (d : Z) (l : list Z) :
  NoDup l ->
  ctl_calls_for d (flat_map (expected_ctl s) l) =
  if decide (d ∈ l) then expected_ctl s d else [].
Proof.
  induction 1 as [|a l Hnotin Hnd IH].
  - destruct (decide (d ∈ [])) as [Hin|_]; [|reflexivity].
    now apply not_elem_of_nil in Hin.
  - cbn [flat_map]. unfold ctl_calls_for in *.
    rewrite List.filter_app, IH.
    change (List.filter (is_ctl_for d) (expected_ctl s a))
      with (ctl_calls_for d (expected_ctl s a)).
    rewrite ctl_calls_for_expected.
    destruct (Z.eqb_spec a d) as [->|Hne].
    + destruct (decide (d ∈ l)) as [Hin|_]; [contradiction|].
      destruct (decide (d ∈ d :: l)) as [_|Hout].
      * apply app_nil_r.
      * exfalso. apply Hout. constructor.
    + cbn [app]. destruct (decide (d ∈ l)) as [Hin|Hout].
      * destruct (decide (d ∈ a :: l)) as [_|Hout]; [reflexivity|].
        exfalso. apply Hout. now constructor.
      * destruct (decide (d ∈ a :: l)) as [Hin|_]; [|reflexivity].
        apply elem_of_cons in Hin. destruct Hin; [congruence|contradiction].
Qed.

(** The registration calls of a whole [epoll_poll] are those of the
    descriptors below [maxfd], in increasing order. *)
Lemma poll_ctl_calls (cb : Z -> Z -> state -> state) (wait_time status : Z)
      (evs : list epoll_event) (s : state) :
  ctl_calls (trace (epoll_poll cb wait_time status evs s)) =
  flat_map (expected_ctl s) (seqZ 0 (maxfd s)).
Proof.
  rewrite epoll_poll_eq. cbv zeta. unfold trace at 1. cbn [snd].
  destruct (reconcile_spec s) as [Htr _]. rewrite Htr.
  unfold ctl_calls. rewrite List.filter_app.
  fold (ctl_calls (flat_map (expected_ctl s) (seqZ 0 (maxfd s)))).
  rewrite ctl_calls_expected. cbn [app List.filter is_ctl].
  fold (ctl_calls (trace (dispatch_loop cb 0 status evs (final (reconcile s))))).
  rewrite (only_callbacks_ctl _ _ (dispatch_loop_callbacks cb evs 0 status _)).
  apply app_nil_r.
Qed.

Lemma poll_ctl_calls_for (cb : Z -> Z -> state -> state) (wait_time status : Z)
      (evs : list epoll_event) (s : state) (d : Z) :
  ctl_calls_for d (trace (epoll_poll cb wait_time status evs s)) =
  if (0 <=? d) && (d <? maxfd s) then expected_ctl s d else [].
Proof.
  rewrite epoll_poll_eq. cbv zeta. unfold trace at 1. cbn [snd].
  destruct (reconcile_spec s) as [Htr _]. rewrite Htr.
  unfold ctl_calls_for. rewrite List.filter_app.
  fold (ctl_calls_for d (flat_map (expected_ctl s) (seqZ 0 (maxfd s)))).
  rewrite ctl_calls_for_flat_map by apply NoDup_seqZ.
  cbn [app List.filter is_ctl_for].
  fold (ctl_calls_for d (trace (dispatch_loop cb 0 status evs (final (reconcile s))))).
  rewrite (only_callbacks_ctl_for _ d _ (dispatch_loop_callbacks cb evs 0 status _)).
  rewrite app_nil_r.
  destruct (decide (d ∈ seqZ 0 (maxfd s))) as [Hin|Hout].
  - apply elem_of_seqZ in Hin.
    destruct (Z.leb_spec 0 d); [|lia]. destruct (Z.ltb_spec d (maxfd s)); [|lia].
    reflexivity.
  - rewrite elem_of_seqZ in Hout.
    destruct (Z.leb_spec 0 d); [|reflexivity].
    destruct (Z.ltb_spec d (maxfd s)); [|reflexivity]. lia.
Qed.

Lemma dispatch_loop_done (cb : Z -> Z -> state -> state)
      (evs : list epoll_event) (count status : Z) (s : state) :
  status <= count -> dispatch_loop cb count status evs s = (tt, s, []).
Proof.
  intros Hle. destruct evs as [|e rest]; [reflexivity|].
  cbn [dispatch_loop]. destruct (Z.ltb_spec count status); [lia|reflexivity].
Qed.

Lemma dispatch_loop_app (cb : Z -> Z -> state -> state)
      (pre post : list epoll_event) :
  forall count status s,
    dispatch_loop cb count status (pre ++ post) s =
    let r1 := dispatch_loop cb count status pre s in
    let r2 := dispatch_loop cb (count + Z.of_nat (length pre)) status post
                            (final r1) in
    (tt, final r2, trace r1 ++ trace r2).
Proof.
  induction pre as [|e pre IH]; intros count status s.
  - cbn [app length dispatch_loop]. cbv zeta. unfold ret, final, trace.
    cbn [fst snd app]. rewrite Z.add_0_r.
    destruct (dispatch_loop cb count status post s) as [[[] s2] t2].
    reflexivity.
  - rewrite <- app_comm_cons, !dispatch_loop_cons.
    destruct (Z.ltb_spec count status) as [Hlt|Hge].
    + cbv zeta. rewrite IH. cbv zeta. unfold final, trace. cbn [fst snd].
      rewrite app_assoc.
      replace (count + 1 + Z.of_nat (length pre))
        with (count + Z.of_nat (length (e :: pre))) by (cbn [length]; lia).
      reflexivity.
    + cbv zeta. unfold final, trace. cbn [fst snd app].
      rewrite dispatch_loop_done by (cbn [length]; lia). reflexivity.
Qed.

Lemma dispatch_event_keeps (cb : Z -> Z -> state -> state)
      (P : state -> Prop) (e : epoll_event) (s : state) :
  (forall dir s, P s -> P (cb dir (data_fd e) s)) ->
  P s -> P (final (dispatch_event cb e s)).
Proof.
  intros Hcb Hs. rewrite dispatch_event_eq. cbv zeta.
  destruct (_ && (fd_state s _ =? _)); [exact Hs|].
  destruct (_ && rd_ready e);
    match goal with |- context [if ?b then _ else _] => destruct b end;
    unfold final; cbn [fst snd]; auto.
Qed.

Lemma dispatch_loop_keeps (cb : Z -> Z -> state -> state)
      (P : state -> Prop) (evs : list epoll_event) :
  (forall dir fd s, P s -> P (cb dir fd s)) ->
  forall count status s,
    P s -> P (final (dispatch_loop cb count status evs s)).
Proof.
  intros Hcb. induction evs as [|e rest IH]; intros count status s Hs.
  - exact Hs.
  - rewrite dispatch_loop_cons. destruct (count <? status); [|exact Hs].
    cbv zeta. unfold final at 1. cbn [fst snd]. apply IH.
    apply dispatch_event_keeps; auto.
Qed.

Lemma poll_final_sets (cb : Z -> Z -> state -> state) (wait_time status : Z)
      (evs : list epoll_event) (s : state) :
  cb_keeps_sets cb ->
  same_sets (final (reconcile s))
            (final (epoll_poll cb wait_time status evs s)).
Proof.
  intros Hcb. rewrite epoll_poll_eq. cbv zeta. unfold final at 1. cbn [fst snd].
  apply (dispatch_loop_keeps cb (same_sets (final (reconcile s)))).
  - intros dir fd s' (H1 & H2 & H3 & H4 & H5).
    destruct (Hcb dir fd s') as (K1 & K2 & K3 & K4 & K5).
    unfold same_sets. rewrite K1, K2, K3, K4, K5. auto.
  - unfold same_sets. auto.
Qed.

Lemma synced_word_covered (mx : Z) (desired prev : fd_set) (i : Z) :
  0 <= i -> 2 ^ INTBITS * i < mx ->
  mx <= 2 ^ INTBITS * Z.of_nat (length prev) ->
  synced_word 0 mx desired prev i = word_at desired i.
Proof.
  intros H0 H1 H2. unfold synced_word.
  destruct (Z.leb_spec 0 i); [|lia].
  destruct (Z.ltb_spec (2 ^ INTBITS * i) mx); [|lia].
  rewrite pow_INTBITS in *.
  destruct (Z.ltb_spec i (Z.of_nat (length prev))); [reflexivity|lia].
Qed.

(** C1. When the previous sets have a word for every descriptor below
    [maxfd] and the callbacks leave the four sets and [maxfd] alone,
    then after a first [epoll_poll] every scanned word of the previous
    sets equals the word of the desired sets, and a second [epoll_poll] on
    the state the first one left makes no registration call. *)
Theorem poll_twice_idempotent (cb : Z -> Z -> state -> state)
        (wt1 status1 : Z) (evs1 : list epoll_event)
        (wt2 status2 : Z) (evs2 : list epoll_event) (s : state) :
  prev_covers s ->
  cb_keeps_sets cb ->
  let s1 := final (epoll_poll cb wt1 status1 evs1 s) in
  (forall fds, 0 <= fds -> Z.shiftl fds INTBITS < maxfd s1 ->
     word_at (PrevReadEvent s1) fds = word_at (StaticReadEvent s1) fds /\
     word_at (PrevWriteEvent s1) fds = word_at (StaticWriteEvent s1) fds) /\
  ctl_calls (trace (epoll_poll cb wt2 status2 evs2 s1)) = [].
Proof.
  intros [Hcr Hcw] Hcb s1.
  destruct (poll_final_sets cb wt1 status1 evs1 s Hcb)
    as (E1 & E2 & E3 & E4 & E5).
  fold s1 in E1, E2, E3, E4, E5.
  destruct (reconcile_spec s) as [_ (A1 & A2 & A3 & A4 & A5 & A6 & A7 & A8)].
  assert (Hwords : forall fds, 0 <= fds -> Z.shiftl fds INTBITS < maxfd s1 ->
     word_at (PrevReadEvent s1) fds = word_at (StaticReadEvent s1) fds /\
     word_at (PrevWriteEvent s1) fds = word_at (StaticWriteEvent s1) fds).
  { intros fds Hfds Hlt.
    rewrite Z.shiftl_mul_pow2 in Hlt by (unfold INTBITS; lia).
    rewrite E1, E2, E3, E4, A1, A2, A7, A8.
    rewrite E5, A3 in Hlt.
    rewrite !synced_word_covered by (assumption || lia). auto. }
  split; [exact Hwords|].
  rewrite poll_ctl_calls. apply flat_map_nil_elem.
  intros fd Hfd. apply elem_of_seqZ in Hfd.
  assert (0 <= fd_elt fd /\ Z.shiftl (fd_elt fd) INTBITS < maxfd s1) as [H0 H1].
  { rewrite Z.shiftl_mul_pow2 by (unfold INTBITS; lia).
    pose proof (fd_split fd). pose proof (fd_bit_range fd).
    rewrite pow_INTBITS in *. lia. }
  destruct (Hwords (fd_elt fd) H0 H1) as [Wr Ww].
  apply expected_ctl_synced; rewrite !fds_isset_testbit; congruence.
Qed.

Lemma flat_map_single {B} (f : Z -> list B) (k : Z) (l : list Z) :
  NoDup l -> (forall x, x <> k -> f x = []) ->
  flat_map f l = if decide (k ∈ l) then f k else [].
Proof.
  intros Hnd Hf. induction Hnd as [|a l Hnotin Hnd IH].
  - destruct (decide (k ∈ [])) as [Hin|_]; [|reflexivity].
    now apply not_elem_of_nil in Hin.
  - cbn [flat_map]. rewrite IH.
    destruct (Z.eq_dec a k) as [->|Hne].
    + destruct (decide (k ∈ l)) as [Hin|_]; [contradiction|].
      destruct (decide (k ∈ k :: l)) as [_|Hout]; [apply app_nil_r|].
      exfalso. apply Hout. constructor.
    + rewrite (Hf a Hne). cbn [app].
      destruct (decide (k ∈ l)) as [Hin|Hout].
      * destruct (decide (k ∈ a :: l)) as [_|Hout]; [reflexivity|].
        exfalso. apply Hout. now constructor.
      * destruct (decide (k ∈ a :: l)) as [Hin|_]; [|reflexivity].
        apply elem_of_cons in Hin. destruct Hin; [congruence|contradiction].
Qed.

Lemma expected_ctl_length (s : state) (fd : Z) :
  (length (expected_ctl s fd) <= 1)%nat.
Proof.
  unfold expected_ctl, ctl_of.
  repeat match goal with |- context [if ?b then _ else _] => destruct b end;
    simpl; lia.
Qed.

(** C2. From a state whose previous sets equal its desired sets, change
    the desired sets in the bits of descriptor [k] only (and [maxfd] and
    the descriptor table at will): the next [epoll_poll] makes at most one
    registration call, all its registration calls are for [k], and it
    makes none for any other descriptor, whatever the number of words of
    the sets and whatever [maxfd]. *)
Theorem single_change_single_call (cb : Z -> Z -> state -> state)
        (wait_time status : Z) (evs : list epoll_event)
        (s s' : state) (k : Z) :
  PrevReadEvent s = StaticReadEvent s ->
  PrevWriteEvent s = StaticWriteEvent s ->
  PrevReadEvent s' = PrevReadEvent s ->
  PrevWriteEvent s' = PrevWriteEvent s ->
  same_but_bit k (StaticReadEvent s) (StaticReadEvent s') ->
  same_but_bit k (StaticWriteEvent s) (StaticWriteEvent s') ->
  let tr := trace (epoll_poll cb wait_time status evs s') in
  (length (ctl_calls tr) <= 1)%nat /\
  ctl_calls tr = ctl_calls_for k tr /\
  forall d, d <> k -> ctl_calls_for d tr = [].
Proof.
  intros Hr Hw Hr' Hw' Sr Sw tr.
  assert (Hidle : forall fd, fd <> k -> expected_ctl s' fd = []).
  { intros fd Hne. apply expected_ctl_synced.
    - rewrite Hr', Hr. symmetry. now apply (same_but_bit_isset k).
    - rewrite Hw', Hw. symmetry. now apply (same_but_bit_isset k). }
  subst tr. rewrite poll_ctl_calls.
  rewrite (flat_map_single _ k) by (apply NoDup_seqZ || exact Hidle).
  split; [|split].
  - destruct (decide (k ∈ seqZ 0 (maxfd s'))); [|simpl; lia].
    apply expected_ctl_length.
  - rewrite poll_ctl_calls_for.
    destruct (decide (k ∈ seqZ 0 (maxfd s'))) as [Hin|Hout].
    + apply elem_of_seqZ in Hin.
      destruct (Z.leb_spec 0 k); [|lia].
      destruct (Z.ltb_spec k (maxfd s')); [|lia]. reflexivity.
    + rewrite elem_of_seqZ in Hout.
      destruct (Z.leb_spec 0 k); [|reflexivity].
      destruct (Z.ltb_spec k (maxfd s')); [|reflexivity]. lia.
  - intros d Hne. rewrite poll_ctl_calls_for.
    rewrite (Hidle d Hne). destruct (_ && _); reflexivity.
Qed.

(** C10. For a descriptor below [maxfd] whose lifecycle state is
    [FD_STCLOSE] and whose interest changed, [epoll_poll] makes exactly
    this registration call: when it was registered in no direction, an
    EPOLL_CTL_ADD with the new flags; when it was registered and is still
    wanted in a direction, an EPOLL_CTL_MOD with the new flags; when it
    was registered and is wanted in no direction, none.  The state is
    consulted for the removal only. *)
Theorem closing_fd_still_registered (cb : Z -> Z -> state -> state)
        (wait_time status : Z) (evs : list epoll_event) (s : state) (fd : Z) :
  0 <= fd < maxfd s ->
  fd_state s fd = FD_STCLOSE ->
  let pr := fds_isset fd (PrevReadEvent s) in
  let pw := fds_isset fd (PrevWriteEvent s) in
  let sr := fds_isset fd (StaticReadEvent s) in
  let sw := fds_isset fd (StaticWriteEvent s) in
  sr <> pr \/ sw <> pw ->
  ctl_calls_for fd (trace (epoll_poll cb wait_time status evs s)) =
  if pr || pw then
    if sr || sw then [Epoll_ctl EPOLL_CTL_MOD fd (ev_mask sr sw)] else []
  else [Epoll_ctl EPOLL_CTL_ADD fd (ev_mask sr sw)].
Proof.
  intros Hfd Hst pr pw sr sw Hch.
  rewrite poll_ctl_calls_for.
  destruct (Z.leb_spec 0 fd); [|lia].
  destruct (Z.ltb_spec fd (maxfd s)); [|lia]. cbn [andb].
  unfold expected_ctl, ctl_of. fold pr pw sr sw. rewrite Hst.
  rewrite Z.eqb_refl.
  destruct pr, pw, sr, sw; simpl; try reflexivity;
    destruct Hch; congruence.
Qed.



Lemma dispatch_event_closed (cb : Z -> Z -> state -> state)
      (e : epoll_event) (s : state) :
  no_interest (data_fd e) s -> dispatch_event cb e s = (tt, s, []).
Proof.
  intros [Hr Hw]. rewrite dispatch_event_eq. cbv zeta.
  rewrite Hr. cbn [andb]. rewrite Hw. reflexivity.
Qed.





(** C7, as the code has it.  A negative value of [epoll_wait] is treated
    exactly as the value 0: [epoll_poll] ends in the same state with the
    same trace, in which no callback is called, and nothing tells its
    caller the two apart. *)
Theorem wait_failure_like_empty (cb : Z -> Z -> state -> state)
        (wait_time status : Z) (evs : list epoll_event) (s : state) :
  status < 0 ->
  epoll_poll cb wait_time status evs s = epoll_poll cb wait_time 0 evs s /\
  epoll_poll cb wait_time status evs s =
  (tt, final (reconcile s),
   trace (reconcile s) ++ [Epoll_wait (maxfd (final (reconcile s))) wait_time;
                           Tv_now]).
Proof.
  intros Hneg. rewrite !epoll_poll_eq. cbv zeta.
  rewrite !dispatch_loop_done by lia. split; reflexivity.
Qed.

(** ** The loops end by their conditions *)

(** Beyond the iterations the conditions allow, the bound on the number of
    iterations plays no part. *)
Lemma fd_loop_fuel (n m : nat) (count fd ro wo rn wn : Z) (s : state) :
  0 <= count -> 32 - count <= Z.of_nat n -> 32 - count <= Z.of_nat m ->
  fd_loop n count fd ro wo rn wn s = fd_loop m count fd ro wo rn wn s.
Proof.
  intros Hc Hn Hm.
  rewrite (fd_loop_spec n ro wo rn wn (fd - count)) by lia.
  rewrite (fd_loop_spec m ro wo rn wn (fd - count)) by lia.
  replace (Z.min (Z.of_nat n) (Z.min (32 - count) (maxfd s - fd)))
    with (Z.min (32 - count) (maxfd s - fd)) by lia.
  replace (Z.min (Z.of_nat m) (Z.min (32 - count) (maxfd s - fd)))
    with (Z.min (32 - count) (maxfd s - fd)) by lia.
  reflexivity.
Qed.

Lemma chunk_loop_fuel (n : nat) :
  forall m fds s,
    0 <= fds ->
    maxfd s <= 32 * (fds + Z.of_nat n) -> maxfd s <= 32 * (fds + Z.of_nat m) ->
    chunk_loop n fds s = chunk_loop m fds s.
Proof.
  assert (Hstop : forall k fds s, 0 <= fds -> maxfd s <= 32 * fds ->
                                  chunk_loop k fds s = (tt, s, [])).
  { intros [|k] fds s Hfds Hle; [reflexivity|].
    rewrite chunk_loop_S, Z.shiftl_mul_pow2, pow_INTBITS
      by (unfold INTBITS; lia).
    destruct (Z.ltb_spec (fds * 32) (maxfd s)); [lia|reflexivity]. }
  induction n as [|n IH]; intros m fds s Hfds Hn Hm.
  - rewrite !Hstop by lia. reflexivity.
  - destruct m as [|m]; [rewrite !Hstop by lia; reflexivity|].
    rewrite !chunk_loop_S.
    destruct (Z.shiftl fds INTBITS <? maxfd s); [|reflexivity].
    cbv zeta. rewrite sync_chunk_spec by assumption.
    change (final (tt, sync_words fds s,
                   flat_map (expected_ctl s)
                            (seqZ (32 * fds) (Z.min 32 (maxfd s - 32 * fds)))))
      with (sync_words fds s).
    rewrite (IH m (fds + 1) (sync_words fds s)) by (simpl; lia).
    reflexivity.
Qed.

(** ** The words stay within 32 bits *)

Lemma word_range_land (w : Z) : 0 <= w < 2 ^ 32 <-> Z.land w (Z.ones 32) = w.
Proof.
  rewrite Z.land_ones by lia. split.
  - intros H. now apply Z.mod_small.
  - intros H. rewrite <- H. apply Z.mod_pos_bound. lia.
Qed.

Lemma word_at_ok (ev : fd_set) (i : Z) :
  words_ok ev -> 0 <= word_at ev i < 2 ^ 32.
Proof.
  intros Hok. unfold word_at. destruct (i <? 0); [lia|].
  destruct (ev !! Z.to_nat i) as [w|] eqn:E; simpl; [|lia].
  unfold words_ok in Hok. rewrite Forall_lookup in Hok. exact (Hok _ _ E).
Qed.

Lemma set_word_ok (ev : fd_set) (i w : Z) :
  words_ok ev -> 0 <= w < 2 ^ 32 -> words_ok (set_word ev i w).
Proof.
  intros Hok Hw. unfold set_word. destruct (i <? 0); [exact Hok|].
  now apply Forall_insert.
Qed.

Lemma fd_mask_ok (fd : Z) : 0 <= fd_mask fd < 2 ^ 32.
Proof.
  rewrite fd_mask_pow. pose proof (fd_bit_range fd). split.
  - apply Z.pow_nonneg. lia.
  - apply Z.pow_lt_mono_r; lia.
Qed.

Lemma fds_set_ok (fd : Z) (ev : fd_set) : words_ok ev -> words_ok (fds_set fd ev).
Proof.
  intros Hok. apply set_word_ok; [exact Hok|].
  apply word_range_land. rewrite Z.land_lor_distr_l.
  f_equal; apply word_range_land; [now apply word_at_ok | apply fd_mask_ok].
Qed.

Lemma fds_clr_ok (fd : Z) (ev : fd_set) : words_ok ev -> words_ok (fds_clr fd ev).
Proof.
  intros Hok. apply set_word_ok; [exact Hok|].
  apply word_range_land.
  rewrite <- Z.land_assoc, (Z.land_comm (Z.lnot _)), Z.land_assoc. f_equal.
  apply word_range_land. now apply word_at_ok.
Qed.

(** ** Examples *)

(** Section 8, scenario 6 of the specification: from no interest,
    [set(5, Read)] then [poll] makes one add call with read interest only;
    then [remove(5)] and [poll] make one delete call and no other. *)
Example add_then_remove :
  let r1 := epoll_poll cb_none 10 0 [] (final (__fd_set 5 DIR_RD st_idle)) in
  let r2 := epoll_poll cb_none 10 0 [] (final (__fd_rem 5 (final r1))) in
  ctl_calls (trace r1) = [Epoll_ctl EPOLL_CTL_ADD 5 EPOLLIN] /\
  ctl_calls (trace r2) = [Epoll_ctl EPOLL_CTL_DEL 5 0].
Proof. split; reflexivity. Qed.

(** Descriptor 5 registered for reading and now wanted for writing too:
    one modify call with both flags.  And the same descriptor no longer
    wanted at all: a delete call when it is open, none when it is pending
    close. *)
Example modify_and_delete :
  ctl_calls (trace (epoll_poll cb_none 10 0 []
               (mkState [32; 0] [32; 0] [32; 0] [0; 0] 40 (repeat 1 64%nat))))
  = [Epoll_ctl EPOLL_CTL_MOD 5 (Z.lor EPOLLIN EPOLLOUT)] /\
  ctl_calls (trace (epoll_poll cb_none 10 0 []
               (mkState [0; 0] [0; 0] [32; 0] [0; 0] 40 (repeat 1 64%nat))))
  = [Epoll_ctl EPOLL_CTL_DEL 5 0] /\
  ctl_calls (trace (epoll_poll cb_none 10 0 []
               (mkState [0; 0] [0; 0] [32; 0] [0; 0] 40 (repeat 1 5%nat ++ [FD_STCLOSE]))))
  = [].
Proof. repeat split. Qed.

(** A failing [calloc] of the third set: what was acquired is released,
    last acquired first. *)
Example init_fails_at_StaticReadEvent :
  let env := mkEnv 3 (fun r => negb (resource_eqb r R_StaticReadEvent)) in
  let r := epoll_init env (mkPoller 7 300) in
  init_ret r = 0 /\ pref (init_poller r) = 0 /\ init_epoll_fd r = 0 /\
  init_trace r =
    [Acquire R_epoll_fd; Acquire R_epoll_events;
     Acquire R_PrevReadEvent; Acquire R_PrevWriteEvent;
     Release R_PrevWriteEvent; Release R_PrevReadEvent;
     Release R_epoll_events; Release R_epoll_fd].
Proof. repeat split. Qed.

(** Closed comparisons of integers, by computation. *)
Ltac by_computation :=
  vm_compute; repeat split; first [reflexivity | discriminate].

(** Descriptor 5 newly wanted: the first poll adds it, the second makes
    no call. *)
Lemma poll_twice_idempotent_witness :
  ctl_calls (trace (epoll_poll cb_none 10 0 [] st_want5)) =
    [Epoll_ctl EPOLL_CTL_ADD 5 EPOLLIN] /\
  ctl_calls (trace (epoll_poll cb_none 10 0 []
                      (final (epoll_poll cb_none 10 0 [] st_want5)))) = [].
Proof.
  split; [reflexivity|].
  refine (proj2 (poll_twice_idempotent cb_none 10 0 [] 10 0 [] st_want5 _ _)).
  - by_computation.
  - intros dir fd s. repeat split.
Defined.

(** Descriptor 5 registered for both directions, then [__fd_clr] of its
    write interest. *)
Lemma single_change_single_call_witness :
  (length (ctl_calls (trace (epoll_poll cb_none 10 0 []
                               (final (__fd_clr 5 DIR_WR st_rw5))))) <= 1)%nat.
Proof.
  refine (proj1 (single_change_single_call cb_none 10 0 [] st_rw5
                   (final (__fd_clr 5 DIR_WR st_rw5)) 5 _ _ _ _ _ _)).
  - reflexivity.
  - reflexivity.
  - reflexivity.
  - reflexivity.
  - apply same_but_bit_refl.
  - apply (same_but_bit_clr 5 [32; 0]).
Defined.





(** The read bit of descriptor 5 is set, that of descriptor 6 is clear. *)
Lemma cond_accessors_witness :
  __fd_cond_s 5 DIR_RD st_want5 = (0, st_want5, []) /\
  result (__fd_cond_c 5 DIR_RD st_want5) = 1 /\
  result (__fd_cond_s 6 DIR_RD st_want5) = 1 /\
  __fd_cond_c 6 DIR_RD st_want5 = (0, st_want5, []).
Proof.
  assert (H5 : fd_in_set 5 (load (dir_ev DIR_RD) st_want5)) by by_computation.
  assert (H6 : fd_in_set 6 (load (dir_ev DIR_RD) st_want5)) by by_computation.
  pose proof (cond_accessors 5 DIR_RD st_want5 H5) as (A1 & A2 & _).
  pose proof (cond_accessors 6 DIR_RD st_want5 H6) as (B1 & _ & _ & B2).
  repeat split; assumption.
Defined.

(** [epoll_wait] returning -4 with a record left in the buffer. *)
Lemma wait_failure_like_empty_witness :
  epoll_poll cb_none 10 (-4) [mkEvent EPOLLOUT 5] st_want5 =
  epoll_poll cb_none 10 0 [mkEvent EPOLLOUT 5] st_want5.
Proof.
  refine (proj1 (wait_failure_like_empty cb_none 10 (-4) [mkEvent EPOLLOUT 5]
                   st_want5 _)).
  by_computation.
Defined.

(** C7, as stated, fails: with descriptor 5 wanted and a record for it in
    the buffer, [epoll_poll] ends in the same state with the same trace
    whether [epoll_wait] returned -1 or 0, and it returns nothing. *)
Lemma wait_failure_counterexample :
  epoll_poll cb_rd_closes 10 (-1) [mkEvent EPOLLIN 5] st_rw5 =
  epoll_poll cb_rd_closes 10 0 [mkEvent EPOLLIN 5] st_rw5.
Proof. reflexivity. Qed.


(** Descriptor 5 pending close and newly wanted for reading: it is
    added. *)
Lemma closing_fd_still_registered_witness :
  ctl_calls_for 5 (trace (epoll_poll cb_none 10 0 [] st_closed5)) =
  [Epoll_ctl EPOLL_CTL_ADD 5 EPOLLIN].
Proof.
  refine (closing_fd_still_registered cb_none 10 0 [] st_closed5 5 _ _ _).
  - by_computation.
  - reflexivity.
  - left. by_computation.
Defined.

(** * Further properties of the code *)

(** ** How the accessors compose *)

Lemma set_word_twice (ev : fd_set) (i : Z) (f g : Z -> Z) :
  set_word (set_word ev i (f (word_at ev i))) i
           (g (word_at (set_word ev i (f (word_at ev i))) i))
  = set_word ev i (g (f (word_at ev i))).
Proof.
  destruct (Z_lt_dec i 0) as [Hneg|Hpos].
  - rewrite !(set_word_outside _ i) by (rewrite ?length_set_word; lia).
    reflexivity.
  - destruct (Z_lt_dec i (Z.of_nat (length ev))) as [Hin|Hout].
    + rewrite word_at_set_word_eq by lia. unfold set_word.
      destruct (i <? 0); [reflexivity|]. apply list_insert_insert_eq.
    + rewrite !(set_word_outside _ i) by (rewrite ?length_set_word; lia).
      reflexivity.
Qed.

Lemma set_word_commute (ev : fd_set) (i j a b : Z) :
  i <> j ->
  set_word (set_word ev i a) j b = set_word (set_word ev j b) i a.
Proof.
  intros Hne. unfold set_word.
  destruct (Z.ltb_spec i 0), (Z.ltb_spec j 0); try reflexivity.
  apply list_insert_insert_ne. lia.
Qed.

Lemma bits_set_clr (w m : Z) : Z.lor (Z.land w (Z.lnot m)) m = Z.lor w m.
Proof.
  apply Z.bits_inj'. intros n Hn.
  rewrite !Z.lor_spec, Z.land_spec, Z.lnot_spec by assumption.
  destruct (Z.testbit w n), (Z.testbit m n); reflexivity.
Qed.

Lemma bits_clr_set (w m : Z) :
  Z.land (Z.lor w m) (Z.lnot m) = Z.land w (Z.lnot m).
Proof.
  apply Z.bits_inj'. intros n Hn.
  rewrite !Z.land_spec, Z.lor_spec, Z.lnot_spec by assumption.
  destruct (Z.testbit w n), (Z.testbit m n); reflexivity.
Qed.

Lemma bits_clr_clr (w m : Z) :
  Z.land (Z.land w (Z.lnot m)) (Z.lnot m) = Z.land w (Z.lnot m).
Proof. rewrite <- Z.land_assoc, Z.land_diag. reflexivity. Qed.

Lemma bits_set_set (w m : Z) : Z.lor (Z.lor w m) m = Z.lor w m.
Proof. rewrite <- Z.lor_assoc, Z.lor_diag. reflexivity. Qed.

Lemma fds_set_set (fd : Z) (ev : fd_set) :
  fds_set fd (fds_set fd ev) = fds_set fd ev.
Proof.
  unfold fds_set.
  rewrite (set_word_twice ev (fd_elt fd) (fun w => Z.lor w (fd_mask fd))
                          (fun w => Z.lor w (fd_mask fd))).
  now rewrite bits_set_set.
Qed.

Lemma fds_clr_clr (fd : Z) (ev : fd_set) :
  fds_clr fd (fds_clr fd ev) = fds_clr fd ev.
Proof.
  unfold fds_clr.
  rewrite (set_word_twice ev (fd_elt fd)
             (fun w => Z.land w (Z.lnot (fd_mask fd)))
             (fun w => Z.land w (Z.lnot (fd_mask fd)))).
  now rewrite bits_clr_clr.
Qed.

Lemma fds_set_clr (fd : Z) (ev : fd_set) :
  fds_set fd (fds_clr fd ev) = fds_set fd ev.
Proof.
  unfold fds_set, fds_clr.
  rewrite (set_word_twice ev (fd_elt fd)
             (fun w => Z.land w (Z.lnot (fd_mask fd)))
             (fun w => Z.lor w (fd_mask fd))).
  now rewrite bits_set_clr.
Qed.

Lemma fds_clr_set (fd : Z) (ev : fd_set) :
  fds_clr fd (fds_set fd ev) = fds_clr fd ev.
Proof.
  unfold fds_set, fds_clr.
  rewrite (set_word_twice ev (fd_elt fd)
             (fun w => Z.lor w (fd_mask fd))
             (fun w => Z.land w (Z.lnot (fd_mask fd)))).
  now rewrite bits_clr_set.
Qed.

(** Setting a bit that is set, or clearing one that is clear, changes
    nothing. *)
Lemma fds_set_id (fd : Z) (ev : fd_set) :
  fds_isset fd ev = true -> fds_set fd ev = ev.
Proof.
  intros Hset. rewrite fds_isset_testbit in Hset. unfold fds_set.
  replace (Z.lor (word_at ev (fd_elt fd)) (fd_mask fd))
    with (word_at ev (fd_elt fd)); [apply set_word_id|].
  apply Z.bits_inj'. intros n Hn. rewrite Z.lor_spec, fd_mask_pow.
  pose proof (fd_bit_range fd).
  rewrite Z.pow2_bits_eqb by lia.
  destruct (Z.eqb_spec (fd mod 2 ^ INTBITS) n) as [<-|_];
    [rewrite Hset; reflexivity | now rewrite orb_false_r].
Qed.

Lemma fds_clr_id (fd : Z) (ev : fd_set) :
  fds_isset fd ev = false -> fds_clr fd ev = ev.
Proof.
  intros Hclr. rewrite fds_isset_testbit in Hclr. unfold fds_clr.
  replace (Z.land (word_at ev (fd_elt fd)) (Z.lnot (fd_mask fd)))
    with (word_at ev (fd_elt fd)); [apply set_word_id|].
  apply Z.bits_inj'. intros n Hn.
  rewrite Z.land_spec, Z.lnot_spec, fd_mask_pow by assumption.
  pose proof (fd_bit_range fd).
  rewrite Z.pow2_bits_eqb by lia.
  destruct (Z.eqb_spec (fd mod 2 ^ INTBITS) n) as [<-|_];
    [rewrite Hclr; reflexivity | now rewrite andb_true_r].
Qed.

Lemma store_store (p : evptr) (v w : fd_set) (s : state) :
  store p v (store p w s) = store p v s.
Proof. destruct p; reflexivity. Qed.

Lemma store_commute (p q : evptr) (v w : fd_set) (s : state) :
  p <> q -> store p v (store q w s) = store q w (store p v s).
Proof. destruct p, q; intros H; try congruence; reflexivity. Qed.

Lemma evptr_eqb_eq (p q : evptr) : evptr_eqb p q = true <-> p = q.
Proof. destruct p, q; simpl; split; congruence. Qed.

(** X1. Reading after writing: after [__fd_set fd dir], on a descriptor
    within the set, [__fd_isset fd' dir'] returns 1 when it names the same
    descriptor and the same set, and what it returned before otherwise;
    after [__fd_clr fd dir] it returns 0 in the first case and what it
    returned before otherwise. *)
Theorem isset_after_update (fd dir fd' dir' : Z) (s : state) :
  fd_in_set fd (load (dir_ev dir) s) ->
  let same := (fd' =? fd) && evptr_eqb (dir_ev dir') (dir_ev dir) in
  result (__fd_isset fd' dir' (final (__fd_set fd dir s))) =
    (if same then 1 else result (__fd_isset fd' dir' s)) /\
  result (__fd_isset fd' dir' (final (__fd_clr fd dir s))) =
    (if same then 0 else result (__fd_isset fd' dir' s)).
Proof.
  intros Hin same. subst same.
  unfold __fd_isset, __fd_set, __fd_clr, FD_ISSET, FD_SET, FD_CLR.
  unfold bind, get, ret, modify, result, final. cbn [fst snd].
  destruct (evptr_eqb (dir_ev dir') (dir_ev dir)) eqn:E.
  - apply evptr_eqb_eq in E. rewrite E, !load_store_same.
    destruct (Z.eqb_spec fd' fd) as [->|Hne]; cbn [andb].
    + rewrite fds_isset_set by assumption. rewrite fds_isset_clr. auto.
    + rewrite (same_but_bit_isset fd fd' _ _ (same_but_bit_set fd _) Hne).
      rewrite (same_but_bit_isset fd fd' _ _ (same_but_bit_clr fd _) Hne).
      auto.
  - rewrite andb_false_r. rewrite !load_store_other by exact E. auto.
Qed.

(** X2. A conditional set followed by the conditional clear of the same
    bit, or the reverse, gives the state back: on a descriptor within the
    set, when the bit is clear [__fd_cond_s] then [__fd_cond_c] both return
    1 and leave the state as it was, and when the bit is set
    [__fd_cond_c] then [__fd_cond_s] do. *)
Theorem cond_round_trip (fd dir : Z) (s : state) :
  fd_in_set fd (load (dir_ev dir) s) ->
  if fds_isset fd (load (dir_ev dir) s)
  then let r1 := __fd_cond_c fd dir s in
       let r2 := __fd_cond_s fd dir (final r1) in
       result r1 = 1 /\ result r2 = 1 /\ final r2 = s
  else let r1 := __fd_cond_s fd dir s in
       let r2 := __fd_cond_c fd dir (final r1) in
       result r1 = 1 /\ result r2 = 1 /\ final r2 = s.
Proof.
  intros Hin. destruct (fds_isset fd (load (dir_ev dir) s)) eqn:E; cbv zeta.
  - set (s1 := store (dir_ev dir) (fds_clr fd (load (dir_ev dir) s)) s).
    assert (H1 : __fd_cond_c fd dir s = (1, s1, []))
      by (rewrite cond_c_eq, E; reflexivity).
    assert (H2 : __fd_cond_s fd dir s1 = (1, s, [])).
    { rewrite cond_s_eq. subst s1.
      rewrite !load_store_same, fds_isset_clr, store_store, fds_set_clr.
      rewrite fds_set_id by exact E. now rewrite store_load. }
    rewrite H1. change (final (1, s1, [])) with s1. rewrite H2. auto.
  - set (s1 := store (dir_ev dir) (fds_set fd (load (dir_ev dir) s)) s).
    assert (H1 : __fd_cond_s fd dir s = (1, s1, []))
      by (rewrite cond_s_eq, E; reflexivity).
    assert (H2 : __fd_cond_c fd dir s1 = (1, s, [])).
    { rewrite cond_c_eq. subst s1.
      rewrite !load_store_same, fds_isset_set, store_store, fds_clr_set
        by exact Hin.
      rewrite fds_clr_id by exact E. now rewrite store_load. }
    rewrite H1. change (final (1, s1, [])) with s1. rewrite H2. auto.
Qed.

(** X3. The last write wins: [__fd_set] twice is [__fd_set] once,
    [__fd_clr] twice is [__fd_clr] once, [__fd_set] after [__fd_clr] is
    [__fd_set], and [__fd_clr] after [__fd_set] is [__fd_clr], for any
    descriptor and direction. *)
Theorem last_write_wins (fd dir : Z) (s : state) :
  final (__fd_set fd dir (final (__fd_set fd dir s))) = final (__fd_set fd dir s) /\
  final (__fd_clr fd dir (final (__fd_clr fd dir s))) = final (__fd_clr fd dir s) /\
  final (__fd_set fd dir (final (__fd_clr fd dir s))) = final (__fd_set fd dir s) /\
  final (__fd_clr fd dir (final (__fd_set fd dir s))) = final (__fd_clr fd dir s).
Proof.
  unfold __fd_set, __fd_clr, FD_SET, FD_CLR, modify, final. cbn [fst snd].
  rewrite !load_store_same, !store_store.
  rewrite fds_set_set, fds_clr_clr, fds_set_clr, fds_clr_set. auto.
Qed.

Lemma set_word_update_commute (ev : fd_set) (i j : Z) (f g : Z -> Z) :
  (i = j -> forall w, f (g w) = g (f w)) ->
  set_word (set_word ev j (g (word_at ev j))) i
           (f (word_at (set_word ev j (g (word_at ev j))) i))
  = set_word (set_word ev i (f (word_at ev i))) j
             (g (word_at (set_word ev i (f (word_at ev i))) j)).
Proof.
  intros Hfg. destruct (Z.eq_dec i j) as [->|Hne].
  - rewrite (set_word_twice ev j g f), (set_word_twice ev j f g).
    now rewrite Hfg.
  - rewrite !word_at_set_word_ne by congruence.
    apply set_word_commute. congruence.
Qed.

Lemma fd_bits_differ (fd fd' : Z) :
  fd <> fd' -> fd_elt fd = fd_elt fd' ->
  fd mod 2 ^ INTBITS <> fd' mod 2 ^ INTBITS.
Proof.
  intros Hne Helt Hmod. apply Hne.
  rewrite (fd_split fd), (fd_split fd'). congruence.
Qed.

Lemma fds_set_set_commute (fd fd' : Z) (ev : fd_set) :
  fds_set fd (fds_set fd' ev) = fds_set fd' (fds_set fd ev).
Proof.
  unfold fds_set.
  apply (set_word_update_commute ev (fd_elt fd) (fd_elt fd')
           (fun w => Z.lor w (fd_mask fd)) (fun w => Z.lor w (fd_mask fd'))).
  intros _ w. rewrite <- !Z.lor_assoc. f_equal. apply Z.lor_comm.
Qed.

Lemma fds_clr_clr_commute (fd fd' : Z) (ev : fd_set) :
  fds_clr fd (fds_clr fd' ev) = fds_clr fd' (fds_clr fd ev).
Proof.
  unfold fds_clr.
  apply (set_word_update_commute ev (fd_elt fd) (fd_elt fd')
           (fun w => Z.land w (Z.lnot (fd_mask fd)))
           (fun w => Z.land w (Z.lnot (fd_mask fd')))).
  intros _ w. rewrite <- !Z.land_assoc. f_equal. apply Z.land_comm.
Qed.

Lemma fds_set_clr_commute (fd fd' : Z) (ev : fd_set) :
  fd <> fd' ->
  fds_set fd (fds_clr fd' ev) = fds_clr fd' (fds_set fd ev).
Proof.
  intros Hne. unfold fds_set, fds_clr.
  apply (set_word_update_commute ev (fd_elt fd) (fd_elt fd')
           (fun w => Z.lor w (fd_mask fd))
           (fun w => Z.land w (Z.lnot (fd_mask fd')))).
  intros Helt w. pose proof (fd_bits_differ fd fd' Hne Helt) as Hbits.
  apply Z.bits_inj'. intros n Hn.
  rewrite !Z.lor_spec, !Z.land_spec, Z.lor_spec, !Z.lnot_spec by assumption.
  rewrite !fd_mask_pow.
  pose proof (fd_bit_range fd). pose proof (fd_bit_range fd').
  rewrite !Z.pow2_bits_eqb by lia.
  destruct (Z.eqb_spec (fd mod 2 ^ INTBITS) n),
           (Z.eqb_spec (fd' mod 2 ^ INTBITS) n);
    try congruence; destruct (Z.testbit w n); reflexivity.
Qed.

(** X4. Accessors on different bits commute: for two descriptors or two
    directions that do not name the same bit, [__fd_set] and [__fd_set],
    [__fd_clr] and [__fd_clr], and [__fd_set] and [__fd_clr] leave the same
    state in either order. *)
Theorem accessors_commute (fd dir fd' dir' : Z) (s : state) :
  fd <> fd' \/ dir_ev dir <> dir_ev dir' ->
  final (__fd_set fd dir (final (__fd_set fd' dir' s))) =
    final (__fd_set fd' dir' (final (__fd_set fd dir s))) /\
  final (__fd_clr fd dir (final (__fd_clr fd' dir' s))) =
    final (__fd_clr fd' dir' (final (__fd_clr fd dir s))) /\
  final (__fd_set fd dir (final (__fd_clr fd' dir' s))) =
    final (__fd_clr fd' dir' (final (__fd_set fd dir s))).
Proof.
  intros Hdiff.
  unfold __fd_set, __fd_clr, FD_SET, FD_CLR, modify, final. cbn [fst snd].
  destruct (evptr_eqb (dir_ev dir) (dir_ev dir')) eqn:E.
  - apply evptr_eqb_eq in E. rewrite E in *.
    destruct Hdiff as [Hne|Hne]; [|congruence].
    rewrite !load_store_same, !store_store.
    rewrite (fds_set_set_commute fd fd'), (fds_clr_clr_commute fd fd').
    rewrite (fds_set_clr_commute fd fd') by assumption. auto.
  - assert (E' : evptr_eqb (dir_ev dir') (dir_ev dir) = false)
      by (destruct (dir_ev dir), (dir_ev dir'); simpl in *; congruence).
    assert (Hp : dir_ev dir <> dir_ev dir')
      by (intros H; apply evptr_eqb_eq in H; congruence).
    rewrite !load_store_other by assumption.
    rewrite !(store_commute (dir_ev dir) (dir_ev dir')) by assumption. auto.
Qed.

(** X5. [__fd_clo d] emits nothing, keeps [maxfd] and the descriptor
    table, leaves the bit of [d] clear in each of the four sets, and
    leaves every other bit of every set as it was. *)
Theorem clo_frame (d : Z) (s : state) :
  let r := __fd_clo d s in
  trace r = [] /\
  maxfd (final r) = maxfd s /\
  fdtab_state (final r) = fdtab_state s /\
  forall p, fds_isset d (load p (final r)) = false /\
            same_but_bit d (load p s) (load p (final r)).
Proof.
  cbv zeta. split; [reflexivity|]. split; [reflexivity|].
  split; [reflexivity|].
  intros p. destruct p; simpl; split;
    first [apply fds_isset_clr | apply same_but_bit_clr].
Qed.

Lemma store_words_ok (p : evptr) (v : fd_set) (s : state) :
  state_words_ok s -> words_ok v -> state_words_ok (store p v s).
Proof.
  intros (H1 & H2 & H3 & H4) Hv. destruct p; unfold state_words_ok; simpl; auto.
Qed.

Lemma load_words_ok (p : evptr) (s : state) :
  state_words_ok s -> words_ok (load p s).
Proof. intros (H1 & H2 & H3 & H4). destruct p; assumption. Qed.

Lemma clr_words_ok (fd : Z) (p : evptr) (s : state) :
  state_words_ok s -> state_words_ok (store p (fds_clr fd (load p s)) s).
Proof.
  intros H. apply store_words_ok; [exact H|].
  apply fds_clr_ok, load_words_ok, H.
Qed.

Lemma clo_words_ok (fd : Z) (s : state) :
  state_words_ok s -> state_words_ok (final (__fd_clo fd s)).
Proof.
  intros Hok.
  apply (clr_words_ok fd P_PrevWrite), (clr_words_ok fd P_PrevRead),
        (clr_words_ok fd P_StaticWrite), (clr_words_ok fd P_StaticRead), Hok.
Qed.

(** X6. The accessors keep every word of the four sets within the 32 bits
    of an [int]: if all words are in [0, 2^32) before [__fd_set],
    [__fd_clr], [__fd_cond_s], [__fd_cond_c], [__fd_rem] or [__fd_clo],
    they are after it. *)
Theorem accessors_keep_words (fd dir : Z) (s : state) :
  state_words_ok s ->
  state_words_ok (final (__fd_set fd dir s)) /\
  state_words_ok (final (__fd_clr fd dir s)) /\
  state_words_ok (final (__fd_cond_s fd dir s)) /\
  state_words_ok (final (__fd_cond_c fd dir s)) /\
  state_words_ok (final (__fd_rem fd s)) /\
  state_words_ok (final (__fd_clo fd s)).
Proof.
  intros Hok.
  assert (Hset : forall p s', state_words_ok s' ->
            state_words_ok (store p (fds_set fd (load p s')) s')).
  { intros p s' H. apply store_words_ok; [exact H|].
    apply fds_set_ok, load_words_ok, H. }
  assert (Hclr : forall p s', state_words_ok s' ->
            state_words_ok (store p (fds_clr fd (load p s')) s')).
  { intros p s' H. apply store_words_ok; [exact H|].
    apply fds_clr_ok, load_words_ok, H. }
  split; [apply Hset, Hok|]. split; [apply Hclr, Hok|].
  split; [rewrite cond_s_eq; destruct (fds_isset _ _); [exact Hok | apply Hset, Hok]|].
  split; [rewrite cond_c_eq; destruct (fds_isset _ _); [apply Hclr, Hok | exact Hok]|].
  split.
  - apply (Hclr P_StaticWrite), (Hclr P_StaticRead), Hok.
  - apply (Hclr P_PrevWrite), (Hclr P_PrevRead),
          (Hclr P_StaticWrite), (Hclr P_StaticRead), Hok.
Qed.

(** ** The reconciliation, seen from outside *)

(** X7. The reconciliation writes the previous sets only, and there only
    the scanned words: it keeps the desired sets, [maxfd], the descriptor
    table and the number of words of the previous sets; afterwards word
    [fds] of a previous set is the word of the desired set when
    [fds << INTBITS < maxfd] (and the word exists), and is what it was
    otherwise. *)
Theorem reconcile_final_state (s : state) :
  let s1 := final (reconcile s) in
  StaticReadEvent s1 = StaticReadEvent s /\
  StaticWriteEvent s1 = StaticWriteEvent s /\
  maxfd s1 = maxfd s /\
  fdtab_state s1 = fdtab_state s /\
  length (PrevReadEvent s1) = length (PrevReadEvent s) /\
  length (PrevWriteEvent s1) = length (PrevWriteEvent s) /\
  forall fds,
    word_at (PrevReadEvent s1) fds =
      (if (0 <=? fds) && (Z.shiftl fds INTBITS <? maxfd s)
          && (fds <? Z.of_nat (length (PrevReadEvent s)))
       then word_at (StaticReadEvent s) fds
       else word_at (PrevReadEvent s) fds) /\
    word_at (PrevWriteEvent s1) fds =
      (if (0 <=? fds) && (Z.shiftl fds INTBITS <? maxfd s)
          && (fds <? Z.of_nat (length (PrevWriteEvent s)))
       then word_at (StaticWriteEvent s) fds
       else word_at (PrevWriteEvent s) fds).
Proof.
  cbv zeta.
  destruct (reconcile_spec s) as [_ (A1 & A2 & A3 & A4 & A5 & A6 & A7 & A8)].
  repeat (split; [assumption|]).
  intros fds. rewrite A7, A8. unfold synced_word.
  destruct (Z.leb_spec 0 fds) as [Hpos|Hneg]; cbn [andb]; [|auto].
  rewrite Z.shiftl_mul_pow2 by (unfold INTBITS; lia).
  rewrite (Z.mul_comm fds). auto.
Qed.

Lemma is_cb_expected (s : state) (l : list Z) :
  List.filter is_cb (flat_map (expected_ctl s) l) = [].
Proof.
  induction l as [|a l IH]; [reflexivity|].
  cbn [flat_map]. rewrite List.filter_app, IH, app_nil_r.
  unfold expected_ctl, ctl_of.
  repeat match goal with |- context [if ?b then _ else _] => destruct b end;
    reflexivity.
Qed.

(** X8. The order of a poll: its trace is the registration calls, then
    one [epoll_wait] with [maxfd] as the number of events and the
    caller's timeout, then [tv_now], then callbacks only. *)
Theorem poll_trace_shape (cb : Z -> Z -> state -> state)
        (wait_time status : Z) (evs : list epoll_event) (s : state) :
  let tr := trace (epoll_poll cb wait_time status evs s) in
  exists ctls cbs,
    tr = ctls ++ [Epoll_wait (maxfd s) wait_time; Tv_now] ++ cbs /\
    ctls = ctl_calls tr /\
    List.filter is_cb tr = cbs.
Proof.
  cbv zeta.
  destruct (reconcile_spec s) as [Htr (_ & _ & A3 & _)].
  set (cbs := trace (dispatch_loop cb 0 status evs (final (reconcile s)))).
  assert (T : trace (epoll_poll cb wait_time status evs s) =
              flat_map (expected_ctl s) (seqZ 0 (maxfd s)) ++
              [Epoll_wait (maxfd s) wait_time; Tv_now] ++ cbs).
  { rewrite epoll_poll_eq. cbv zeta. unfold trace at 1. cbn [snd].
    rewrite Htr, A3. reflexivity. }
  exists (flat_map (expected_ctl s) (seqZ 0 (maxfd s))), cbs.
  split; [exact T|]. split; [now rewrite poll_ctl_calls|].
  rewrite T, List.filter_app.
  rewrite is_cb_expected. cbn [app List.filter is_cb].
  pose proof (dispatch_loop_callbacks cb evs 0 status (final (reconcile s))) as Hcb.
  fold cbs in Hcb. clearbody cbs. clear T.
  induction Hcb as [|x l (dir & fd & -> & _) _ IH]; [reflexivity|].
  cbn [List.filter is_cb]. now rewrite IH.
Qed.

Lemma expected_ctl_in (s : state) (x : Z) (op : ctl_op) (fd m : Z) :
  In (Epoll_ctl op fd m) (expected_ctl s x) ->
  let pr := fds_isset fd (PrevReadEvent s) in
  let pw := fds_isset fd (PrevWriteEvent s) in
  let sr := fds_isset fd (StaticReadEvent s) in
  let sw := fds_isset fd (StaticWriteEvent s) in
  x = fd /\ m = ev_mask sr sw /\
  match op with
  | EPOLL_CTL_ADD => pr || pw = false /\ sr || sw = true
  | EPOLL_CTL_MOD => pr || pw = true /\ sr || sw = true
  | EPOLL_CTL_DEL => pr || pw = true /\ sr || sw = false /\
                     fd_state s fd <> FD_STCLOSE
  end.
Proof.
  unfold expected_ctl, ctl_of. intros Hin.
  destruct (fds_isset x (PrevReadEvent s)) eqn:E1,
           (fds_isset x (PrevWriteEvent s)) eqn:E2,
           (fds_isset x (StaticReadEvent s)) eqn:E3,
           (fds_isset x (StaticWriteEvent s)) eqn:E4;
    cbn [Bool.eqb andb orb] in Hin;
    try destruct (Z.eqb_spec (fd_state s x) FD_STCLOSE);
    cbn [In] in Hin;
    repeat match goal with
           | H : _ \/ _ |- _ => destruct H
           | H : False |- _ => destruct H
           | H : Epoll_ctl _ _ _ = Epoll_ctl _ _ _ |- _ =>
               injection H as <- <- <-
           end;
    cbv zeta; rewrite E1, E2, E3, E4; repeat split; auto.
Qed.

(** X9. Every registration call of a poll is for a descriptor in
    [0, maxfd), carries EPOLLIN exactly when the descriptor is wanted for
    reading and EPOLLOUT exactly when it is wanted for writing, and:
    an add is for a descriptor registered in no direction and wanted in
    one; a modify is for one registered and still wanted; a delete is for
    one registered, wanted in no direction, and not in state
    [FD_STCLOSE]. *)
Theorem ctl_calls_wellformed (cb : Z -> Z -> state -> state)
        (wait_time status : Z) (evs : list epoll_event) (s : state)
        (op : ctl_op) (fd m : Z) :
  In (Epoll_ctl op fd m) (trace (epoll_poll cb wait_time status evs s)) ->
  let pr := fds_isset fd (PrevReadEvent s) in
  let pw := fds_isset fd (PrevWriteEvent s) in
  let sr := fds_isset fd (StaticReadEvent s) in
  let sw := fds_isset fd (StaticWriteEvent s) in
  0 <= fd < maxfd s /\
  m = ev_mask sr sw /\
  match op with
  | EPOLL_CTL_ADD => pr || pw = false /\ sr || sw = true
  | EPOLL_CTL_MOD => pr || pw = true /\ sr || sw = true
  | EPOLL_CTL_DEL => pr || pw = true /\ sr || sw = false /\
                     fd_state s fd <> FD_STCLOSE
  end.
Proof.
  intros Hin.
  assert (Hc : In (Epoll_ctl op fd m)
                  (ctl_calls (trace (epoll_poll cb wait_time status evs s)))).
  { unfold ctl_calls. apply filter_In. split; [exact Hin | reflexivity]. }
  rewrite poll_ctl_calls in Hc. apply in_flat_map in Hc.
  destruct Hc as (x & Hx & Hc).
  apply list_elem_of_In, elem_of_seqZ in Hx.
  destruct (expected_ctl_in s x op fd m Hc) as (-> & Hm & Hop).
  split; [lia|]. split; assumption.
Qed.

(** X10. For a descriptor in [0, maxfd) that is not in state
    [FD_STCLOSE], a poll makes no registration call when its desired bits
    equal its previous bits, and otherwise exactly one: an add when it was
    registered in no direction, a delete when it is wanted in no direction,
    a modify in the remaining case, with the flags of its desired bits. *)
Theorem open_fd_exact_call (cb : Z -> Z -> state -> state)
        (wait_time status : Z) (evs : list epoll_event) (s : state) (fd : Z) :
  0 <= fd < maxfd s ->
  fd_state s fd <> FD_STCLOSE ->
  let pr := fds_isset fd (PrevReadEvent s) in
  let pw := fds_isset fd (PrevWriteEvent s) in
  let sr := fds_isset fd (StaticReadEvent s) in
  let sw := fds_isset fd (StaticWriteEvent s) in
  ctl_calls_for fd (trace (epoll_poll cb wait_time status evs s)) =
  if Bool.eqb sr pr && Bool.eqb sw pw then []
  else [Epoll_ctl (if pr || pw
                   then if sr || sw then EPOLL_CTL_MOD else EPOLL_CTL_DEL
                   else EPOLL_CTL_ADD)
                  fd (ev_mask sr sw)].
Proof.
  intros Hfd Hst pr pw sr sw. rewrite poll_ctl_calls_for.
  destruct (Z.leb_spec 0 fd); [|lia].
  destruct (Z.ltb_spec fd (maxfd s)); [|lia]. cbn [andb].
  unfold expected_ctl, ctl_of. fold pr pw sr sw.
  apply Z.eqb_neq in Hst. rewrite Hst.
  destruct pr, pw, sr, sw; reflexivity.
Qed.

Lemma reconcile_empty (s : state) : maxfd s <= 0 -> reconcile s = (tt, s, []).
Proof.
  intros Hle. unfold reconcile, bind, get. cbn [fst snd].
  replace (Z.to_nat (maxfd s)) with 0%nat by lia. reflexivity.
Qed.

(** X11. With [maxfd] at most 0 there is nothing to reconcile: a poll
    makes no registration call, leaves the previous sets as they are, and
    consists of [epoll_wait], [tv_now] and the event loop. *)
Theorem poll_nothing_to_scan (cb : Z -> Z -> state -> state)
        (wait_time status : Z) (evs : list epoll_event) (s : state) :
  maxfd s <= 0 ->
  let r := dispatch_loop cb 0 status evs s in
  epoll_poll cb wait_time status evs s =
  (tt, final r, [Epoll_wait (maxfd s) wait_time; Tv_now] ++ trace r).
Proof.
  intros Hle r. rewrite epoll_poll_eq. cbv zeta.
  rewrite reconcile_empty by assumption. reflexivity.
Qed.

(** ** The event loop, seen from outside *)

Lemma dispatch_loop_take (cb : Z -> Z -> state -> state)
      (evs : list epoll_event) :
  forall count status s,
    dispatch_loop cb count status evs s =
    dispatch_loop cb count status (take (Z.to_nat (status - count)) evs) s.
Proof.
  induction evs as [|e rest IH]; intros count status s.
  - now rewrite take_nil.
  - destruct (Z.ltb_spec count status) as [Hlt|Hge].
    + replace (Z.to_nat (status - count))
        with (S (Z.to_nat (status - (count + 1)))) by lia.
      cbn [take]. rewrite !dispatch_loop_cons.
      destruct (Z.ltb_spec count status); [|lia]. cbv zeta.
      now rewrite <- IH.
    + replace (Z.to_nat (status - count)) with 0%nat by lia.
      cbn [take]. now rewrite dispatch_loop_done by lia.
Qed.

(** X12. Only the first [status] records of the buffer count: a poll with
    the buffer cut after [status] records (none when [status] is not
    positive) ends in the same state with the same trace. *)
Theorem poll_reads_status_records (cb : Z -> Z -> state -> state)
        (wait_time status : Z) (evs : list epoll_event) (s : state) :
  epoll_poll cb wait_time status evs s =
  epoll_poll cb wait_time status (take (Z.to_nat status) evs) s.
Proof.
  rewrite !epoll_poll_eq. cbv zeta.
  rewrite (dispatch_loop_take cb evs 0 status).
  now rewrite Z.sub_0_r.
Qed.

(** A poll over [pre ++ e :: post] is the poll over [pre], the loop body
    on [e], and the loop over [post]. *)
Lemma poll_record_split (cb : Z -> Z -> state -> state)
      (wait_time status : Z) (pre post : list epoll_event)
      (e : epoll_event) (s : state) :
  Z.of_nat (length pre) < status ->
  epoll_poll cb wait_time status (pre ++ e :: post) s =
  let r0 := epoll_poll cb wait_time status pre s in
  let r1 := dispatch_event cb e (final r0) in
  let r2 := dispatch_loop cb (Z.of_nat (length pre) + 1) status post (final r1) in
  (tt, final r2, trace r0 ++ trace r1 ++ trace r2).
Proof.
  intros Hlen. rewrite !epoll_poll_eq. cbv zeta.
  rewrite dispatch_loop_app. cbv zeta. rewrite dispatch_loop_cons.
  destruct (Z.ltb_spec (0 + Z.of_nat (length pre)) status); [|lia].
  cbv zeta. unfold final, trace. cbn [fst snd].
  replace (0 + Z.of_nat (length pre) + 1)
    with (Z.of_nat (length pre) + 1) by lia.
  f_equal. rewrite <- !app_assoc. reflexivity.
Qed.

Lemma dispatch_event_stale (cb : Z -> Z -> state -> state)
      (e : epoll_event) (s : state) :
  fd_state s (data_fd e) = FD_STCLOSE -> dispatch_event cb e s = (tt, s, []).
Proof.
  intros Hst. rewrite dispatch_event_eq. cbv zeta. rewrite Hst, Z.eqb_refl.
  destruct (fds_isset (data_fd e) (StaticReadEvent s)); cbn [andb];
    [reflexivity|].
  rewrite Hst, Z.eqb_refl.
  destruct (fds_isset (data_fd e) (StaticWriteEvent s)); reflexivity.
Qed.

(** X13. A record is skipped as a whole, with no callback and no change
    of the state, when it is reached with its descriptor in state
    [FD_STCLOSE], or with its descriptor wanted in no direction: the poll
    goes on with the next record as if the record were not there. *)
Theorem stale_record_skipped (cb : Z -> Z -> state -> state)
        (wait_time status : Z) (pre post : list epoll_event)
        (e : epoll_event) (s : state) :
  Z.of_nat (length pre) < status ->
  let r0 := epoll_poll cb wait_time status pre s in
  fd_state (final r0) (data_fd e) = FD_STCLOSE \/
  no_interest (data_fd e) (final r0) ->
  let r2 := dispatch_loop cb (Z.of_nat (length pre) + 1) status post (final r0) in
  epoll_poll cb wait_time status (pre ++ e :: post) s =
  (tt, final r2, trace r0 ++ trace r2).
Proof.
  intros Hlen r0 Hstale r2.
  rewrite poll_record_split by assumption. cbv zeta. fold r0.
  assert (Hev : dispatch_event cb e (final r0) = (tt, final r0, [])).
  { destruct Hstale as [Hst|Hno];
      [now apply dispatch_event_stale | now apply dispatch_event_closed]. }
  rewrite Hev. reflexivity.
Qed.

Lemma dispatch_event_in_only (cb : Z -> Z -> state -> state)
      (e : epoll_event) (s : state) :
  events e = EPOLLIN ->
  trace (dispatch_event cb e s) =
  if fds_isset (data_fd e) (StaticReadEvent s)
     && negb (fd_state s (data_fd e) =? FD_STCLOSE)
  then [Callback DIR_RD (data_fd e)] else [].
Proof.
  intros Hin. rewrite dispatch_event_eq. cbv zeta.
  assert (rd_ready e = true) as -> by (unfold rd_ready; now rewrite Hin).
  assert (wr_ready e = false) as -> by (unfold wr_ready; now rewrite Hin).
  destruct (fds_isset (data_fd e) (StaticReadEvent s));
    destruct (fd_state s (data_fd e) =? FD_STCLOSE);
    cbn [andb negb]; rewrite ?andb_false_r; reflexivity.
Qed.

Lemma dispatch_event_out_only (cb : Z -> Z -> state -> state)
      (e : epoll_event) (s : state) :
  events e = EPOLLOUT ->
  trace (dispatch_event cb e s) =
  if fds_isset (data_fd e) (StaticWriteEvent s)
     && negb (fd_state s (data_fd e) =? FD_STCLOSE)
  then [Callback DIR_WR (data_fd e)] else [].
Proof.
  intros Hout. rewrite dispatch_event_eq. cbv zeta.
  assert (rd_ready e = false) as -> by (unfold rd_ready; now rewrite Hout).
  assert (wr_ready e = true) as -> by (unfold wr_ready; now rewrite Hout).
  rewrite !andb_false_r, !andb_true_r.
  destruct (fds_isset (data_fd e) (StaticReadEvent s));
    destruct (fd_state s (data_fd e) =? FD_STCLOSE);
    destruct (fds_isset (data_fd e) (StaticWriteEvent s));
    reflexivity.
Qed.

(** X14. A record that carries EPOLLIN alone can only call the read
    callback, and one that carries EPOLLOUT alone only the write callback:
    the callback of that direction is called when the descriptor is wanted
    in that direction and not in state [FD_STCLOSE] as the record is
    reached, and nothing is called otherwise. *)
Theorem single_flag_single_callback (cb : Z -> Z -> state -> state)
        (wait_time status : Z) (pre : list epoll_event)
        (e : epoll_event) (s : state) :
  Z.of_nat (length pre) < status ->
  events e = EPOLLIN \/ events e = EPOLLOUT ->
  let r0 := epoll_poll cb wait_time status pre s in
  let fd := data_fd e in
  let dir := if events e =? EPOLLIN then DIR_RD else DIR_WR in
  trace (epoll_poll cb wait_time status (pre ++ [e]) s) =
  trace r0 ++
  (if fds_isset fd (load (dir_ev dir) (final r0))
      && negb (fd_state (final r0) fd =? FD_STCLOSE)
   then [Callback dir fd] else []).
Proof.
  intros Hlen Hflag r0 fd dir.
  rewrite poll_record_split by assumption. cbv zeta. fold r0.
  unfold trace at 1. cbn [snd dispatch_loop]. unfold ret, trace at 3.
  cbn [snd]. rewrite app_nil_r. f_equal. subst dir fd.
  destruct Hflag as [H | H].
  - rewrite (dispatch_event_in_only cb e (final r0) H), H. reflexivity.
  - rewrite (dispatch_event_out_only cb e (final r0) H), H. reflexivity.
Qed.

Lemma dispatch_event_shape (cb : Z -> Z -> state -> state)
      (e : epoll_event) (s : state) :
  let t := trace (dispatch_event cb e s) in
  let fd := data_fd e in
  t = [] \/ t = [Callback DIR_RD fd] \/ t = [Callback DIR_WR fd] \/
  t = [Callback DIR_RD fd; Callback DIR_WR fd].
Proof.
  cbv zeta. rewrite dispatch_event_eq. cbv zeta.
  destruct (_ && (fd_state s _ =? _)); [left; reflexivity|].
  destruct (_ && rd_ready e);
    match goal with |- context [if ?b then _ else _] => destruct b end;
    unfold trace; cbn [snd app]; auto.
Qed.

(** X15. For one record a poll calls nothing, the read callback, the
    write callback, or the read callback and then the write callback, of
    the record's descriptor: never a callback twice, never the write
    callback before the read callback, never another descriptor's. *)
Theorem record_callbacks_shape (cb : Z -> Z -> state -> state)
        (wait_time status : Z) (pre : list epoll_event)
        (e : epoll_event) (s : state) :
  Z.of_nat (length pre) < status ->
  let r0 := epoll_poll cb wait_time status pre s in
  let fd := data_fd e in
  exists t,
    trace (epoll_poll cb wait_time status (pre ++ [e]) s) = trace r0 ++ t /\
    (t = [] \/ t = [Callback DIR_RD fd] \/ t = [Callback DIR_WR fd] \/
     t = [Callback DIR_RD fd; Callback DIR_WR fd]).
Proof.
  intros Hlen r0 fd.
  exists (trace (dispatch_event cb e (final r0))). split.
  - rewrite poll_record_split by assumption. cbv zeta. fold r0.
    unfold trace at 1. cbn [snd dispatch_loop]. unfold ret, trace at 3.
    cbn [snd]. now rewrite app_nil_r.
  - apply dispatch_event_shape.
Qed.

Lemma dispatch_loop_count (cb : Z -> Z -> state -> state)
      (evs : list epoll_event) :
  forall count status s,
    (length (trace (dispatch_loop cb count status evs s))
     <= 2 * Nat.min (Z.to_nat (status - count)) (length evs))%nat.
Proof.
  induction evs as [|e rest IH]; intros count status s.
  - simpl. lia.
  - rewrite dispatch_loop_cons.
    destruct (Z.ltb_spec count status) as [Hlt|Hge]; [|simpl; lia].
    cbv zeta. unfold trace at 1. cbn [snd]. rewrite length_app.
    specialize (IH (count + 1) status (final (dispatch_event cb e s))).
    replace (Z.to_nat (status - count))
      with (S (Z.to_nat (status - (count + 1)))) by lia.
    cbn [length Nat.min].
    assert (length (trace (dispatch_event cb e s)) <= 2)%nat.
    { destruct (dispatch_event_shape cb e s) as [H|[H|[H|H]]];
        cbv zeta in H; rewrite H; simpl; lia. }
    lia.
Qed.

(** X16. A poll makes at most two callback calls per record it reads,
    and it reads at most [status] records and at most the records of the
    buffer. *)
Theorem callbacks_bounded (cb : Z -> Z -> state -> state)
        (wait_time status : Z) (evs : list epoll_event) (s : state) :
  (length (List.filter is_cb (trace (epoll_poll cb wait_time status evs s)))
   <= 2 * Nat.min (Z.to_nat status) (length evs))%nat.
Proof.
  rewrite epoll_poll_eq. cbv zeta. unfold trace at 1. cbn [snd].
  destruct (reconcile_spec s) as [Htr _]. rewrite Htr.
  rewrite List.filter_app, is_cb_expected. cbn [app List.filter is_cb].
  pose proof (dispatch_loop_count cb evs 0 status (final (reconcile s))) as Hc.
  rewrite Z.sub_0_r in Hc.
  pose proof (List.filter_length_le is_cb
                (trace (dispatch_loop cb 0 status evs (final (reconcile s))))).
  lia.
Qed.

(** ** Accessors followed by a poll *)

(** X17. Taking a descriptor into use: when a descriptor in [0, maxfd),
    within the set, has no desired and no previous bit, then after
    [__fd_set d dir] the next poll makes exactly one registration call
    for it, an add carrying the flag of [dir] alone, whatever its lifecycle
    state. *)
Theorem poll_after_set_adds (cb : Z -> Z -> state -> state)
        (wait_time status : Z) (evs : list epoll_event)
        (s : state) (d dir : Z) :
  0 <= d < maxfd s ->
  fd_in_set d (load (dir_ev dir) s) ->
  (forall p, fds_isset d (load p s) = false) ->
  ctl_calls_for d
    (trace (epoll_poll cb wait_time status evs (final (__fd_set d dir s))))
  = [Epoll_ctl EPOLL_CTL_ADD d (dir_flag dir)].
Proof.
  intros Hd Hin Hclear. rewrite poll_ctl_calls_for.
  unfold __fd_set, FD_SET, modify, final. cbn [fst snd].
  pose proof (Hclear P_StaticRead) as C1. pose proof (Hclear P_StaticWrite) as C2.
  pose proof (Hclear P_PrevRead) as C3. pose proof (Hclear P_PrevWrite) as C4.
  cbn [load] in C1, C2, C3, C4.
  unfold dir_ev, dir_flag in *.
  destruct (dir =? DIR_RD); cbn [store load maxfd] in *;
    (destruct (Z.leb_spec 0 d); [|lia]);
    (destruct (Z.ltb_spec d (maxfd s)); [|lia]); cbn [andb];
    unfold expected_ctl, ctl_of;
    cbn [PrevReadEvent PrevWriteEvent StaticReadEvent StaticWriteEvent];
    rewrite C3, C4, ?C1, ?C2, fds_isset_set by assumption; reflexivity.
Qed.

(** X18. Giving a descriptor up: when a descriptor in [0, maxfd) has a
    previous bit, then after [__fd_rem d] the next poll makes for it
    exactly one delete call with no flag when it is not in state
    [FD_STCLOSE], and no call at all when it is. *)
Theorem poll_after_rem_deletes (cb : Z -> Z -> state -> state)
        (wait_time status : Z) (evs : list epoll_event)
        (s : state) (d : Z) :
  0 <= d < maxfd s ->
  fds_isset d (PrevReadEvent s) = true \/ fds_isset d (PrevWriteEvent s) = true ->
  ctl_calls_for d
    (trace (epoll_poll cb wait_time status evs (final (__fd_rem d s))))
  = if fd_state s d =? FD_STCLOSE then [] else [Epoll_ctl EPOLL_CTL_DEL d 0].
Proof.
  intros Hd Hprev. rewrite poll_ctl_calls_for.
  change (maxfd (final (__fd_rem d s))) with (maxfd s).
  destruct (Z.leb_spec 0 d); [|lia].
  destruct (Z.ltb_spec d (maxfd s)); [|lia]. cbn [andb].
  unfold expected_ctl, ctl_of.
  change (fd_state (final (__fd_rem d s)) d) with (fd_state s d).
  change (PrevReadEvent (final (__fd_rem d s))) with (PrevReadEvent s).
  change (PrevWriteEvent (final (__fd_rem d s))) with (PrevWriteEvent s).
  change (StaticReadEvent (final (__fd_rem d s)))
    with (fds_clr d (StaticReadEvent s)).
  change (StaticWriteEvent (final (__fd_rem d s)))
    with (fds_clr d (StaticWriteEvent s)).
  rewrite !fds_isset_clr.
  destruct (fds_isset d (PrevReadEvent s)), (fds_isset d (PrevWriteEvent s));
    try (destruct Hprev; discriminate);
    destruct (fd_state s d =? FD_STCLOSE); reflexivity.
Qed.

Lemma ctl_calls_for_same_bits (cb cb' : Z -> Z -> state -> state)
      (wt wt' status status' : Z) (evs evs' : list epoll_event)
      (s s' : state) (d : Z) :
  maxfd s' = maxfd s -> fdtab_state s' = fdtab_state s ->
  (forall p, fds_isset d (load p s') = fds_isset d (load p s)) ->
  ctl_calls_for d (trace (epoll_poll cb' wt' status' evs' s')) =
  ctl_calls_for d (trace (epoll_poll cb wt status evs s)).
Proof.
  intros Hm Ht Hb. rewrite !poll_ctl_calls_for, Hm.
  pose proof (Hb P_StaticRead) as B1. pose proof (Hb P_StaticWrite) as B2.
  pose proof (Hb P_PrevRead) as B3. pose proof (Hb P_PrevWrite) as B4.
  cbn [load] in B1, B2, B3, B4.
  unfold expected_ctl, fd_state. rewrite Ht, B1, B2, B3, B4.
  reflexivity.
Qed.

Lemma frame_other_bits {A} (d d' : Z) (targets : list evptr) (c : M A) (s : state) :
  accessor_frame d targets c -> d' <> d ->
  maxfd (final (c s)) = maxfd s /\
  fdtab_state (final (c s)) = fdtab_state s /\
  forall p, fds_isset d' (load p (final (c s))) = fds_isset d' (load p s).
Proof.
  intros Hf Hne. destruct (Hf s) as (_ & Hm & Ht & Hp & _).
  split; [exact Hm|]. split; [exact Ht|].
  intros p. specialize (Hp p).
  destruct (existsb (evptr_eqb p) targets).
  - now apply (same_but_bit_isset d).
  - now rewrite Hp.
Qed.

(** X19. An accessor on descriptor [d] changes what the next poll
    registers for [d] only: for any other descriptor [d'], the
    registration calls of a poll after [__fd_set], [__fd_clr],
    [__fd_cond_s], [__fd_cond_c], [__fd_rem] or [__fd_clo] on [d] are the
    calls the poll would have made without it. *)
Theorem accessor_effect_local (cb : Z -> Z -> state -> state)
        (wait_time status : Z) (evs : list epoll_event)
        (s : state) (d dir d' : Z) :
  d' <> d ->
  let calls := fun s' =>
    ctl_calls_for d' (trace (epoll_poll cb wait_time status evs s')) in
  calls (final (__fd_set d dir s)) = calls s /\
  calls (final (__fd_clr d dir s)) = calls s /\
  calls (final (__fd_cond_s d dir s)) = calls s /\
  calls (final (__fd_cond_c d dir s)) = calls s /\
  calls (final (__fd_rem d s)) = calls s /\
  calls (final (__fd_clo d s)) = calls s.
Proof.
  intros Hne calls. subst calls. cbv beta.
  assert (Hacc : forall A (targets : list evptr) (c : M A),
             accessor_frame d targets c ->
             ctl_calls_for d' (trace (epoll_poll cb wait_time status evs (final (c s))))
             = ctl_calls_for d' (trace (epoll_poll cb wait_time status evs s))).
  { intros A targets c Hf.
    destruct (frame_other_bits d d' targets c s Hf Hne) as (Hm & Ht & Hb).
    now apply ctl_calls_for_same_bits. }
  split; [apply (Hacc _ _ _ (frame_set d dir))|].
  split; [apply (Hacc _ _ _ (frame_clr d dir))|].
  split; [apply (Hacc _ _ _ (frame_cond_s d dir))|].
  split; [apply (Hacc _ _ _ (frame_cond_c d dir))|].
  split; [apply (Hacc _ _ _ (frame_rem d))|].
  apply ctl_calls_for_same_bits; [reflexivity | reflexivity |].
  intros p. destruct p; simpl;
    apply (same_but_bit_isset d d' _ _ (same_but_bit_clr d _) Hne).
Qed.

(** ** The words stay within 32 bits across a poll *)

Lemma words_ok_lookup (ev : fd_set) :
  (forall i, 0 <= word_at ev i < 2 ^ 32) -> words_ok ev.
Proof.
  intros H. unfold words_ok. apply Forall_lookup. intros i x Hx.
  specialize (H (Z.of_nat i)). unfold word_at in H.
  destruct (Z.ltb_spec (Z.of_nat i) 0); [lia|].
  rewrite Nat2Z.id, Hx in H. exact H.
Qed.

Lemma reconcile_words_ok (s : state) :
  state_words_ok s -> state_words_ok (final (reconcile s)).
Proof.
  intros (H1 & H2 & H3 & H4).
  destruct (reconcile_spec s) as [_ (A1 & A2 & _ & _ & _ & _ & A7 & A8)].
  unfold state_words_ok. rewrite A1, A2.
  split; [exact H1|]. split; [exact H2|].
  split; apply words_ok_lookup; intros i; rewrite ?A7, ?A8;
    unfold synced_word; destruct (_ && _); now apply word_at_ok.
Qed.

(** X20. A poll keeps every word of the four sets within the 32 bits of
    an [int], provided the callbacks do. *)
Theorem poll_keeps_words (cb : Z -> Z -> state -> state)
        (wait_time status : Z) (evs : list epoll_event) (s : state) :
  (forall dir fd s', state_words_ok s' -> state_words_ok (cb dir fd s')) ->
  state_words_ok s ->
  state_words_ok (final (epoll_poll cb wait_time status evs s)).
Proof.
  intros Hcb Hok. rewrite epoll_poll_eq. cbv zeta. unfold final at 1.
  cbn [fst snd].
  apply (dispatch_loop_keeps cb state_words_ok evs Hcb).
  now apply reconcile_words_ok.
Qed.

(** ** Initialisation, termination and registration together *)

Lemma epoll_init_g_fst (env : init_env) (p : poller) (g : globals) :
  fst (epoll_init_g env p g) = epoll_init env p /\
  epoll_fd (snd (epoll_init_g env p g)) = init_epoll_fd (epoll_init env p).
Proof.
  unfold epoll_init_g, epoll_init.
  destruct (epoll_create_ret env <? 0); [split; reflexivity|].
  destruct (calloc_ok env R_epoll_events); cbn [negb]; [|split; reflexivity].
  destruct (calloc_ok env R_PrevReadEvent); cbn [negb]; [|split; reflexivity].
  destruct (calloc_ok env R_PrevWriteEvent); cbn [negb]; [|split; reflexivity].
  destruct (calloc_ok env R_StaticReadEvent); cbn [negb]; [|split; reflexivity].
  destruct (calloc_ok env R_StaticWriteEvent); cbn [negb]; split; reflexivity.
Qed.

(** X21. After a successful [epoll_init], whatever the static variables
    held before, [epoll_term] frees the five allocations in the reverse
    order of their acquisition, then closes the descriptor [epoll_create]
    returned, and leaves [epoll_fd], the preference and the private
    pointer at 0. *)
Theorem init_then_term (env : init_env) (p : poller) (g : globals) :
  forallb (acquires env) all_resources = true ->
  let ig := epoll_init_g env p g in
  let t := epoll_term (snd ig) (init_poller (fst ig)) in
  init_ret (fst ig) = 1 /\
  fst (fst t) = map Free (rev (tl all_resources)) ++ [Close (epoll_create_ret env)] /\
  epoll_fd (snd (fst t)) = 0 /\
  snd t = mkPoller 0 0.
Proof.
  destruct env as [efd ok]. unfold epoll_init_g, epoll_term. simpl.
  destruct (efd <? 0); simpl; [discriminate|].
  destruct (ok R_epoll_events); simpl; [|discriminate].
  destruct (ok R_PrevReadEvent); simpl; [|discriminate].
  destruct (ok R_PrevWriteEvent); simpl; [|discriminate].
  destruct (ok R_StaticReadEvent); simpl; [|discriminate].
  destruct (ok R_StaticWriteEvent); simpl; [|discriminate].
  intros _. repeat split.
Qed.

(** Each [Free] of the first list has its [Release] in the second. *)
Ltac freed_before :=
  let r := fresh "r" in
  let Hr := fresh "Hr" in
  intros r Hr; simpl in Hr;
  repeat (destruct Hr as [Hr|Hr];
          [first [discriminate Hr
                 | injection Hr as <-; simpl;
                   repeat first [left; reflexivity | right]]
          |]);
  contradiction.

(** X22. After a failed [epoll_init] started from zeroed static
    variables, the pointers of the allocations it obtained are still
    non-null and [epoll_fd] is 0, or the negative value of [epoll_create]
    when that call failed.  An [epoll_term] then frees each allocation the
    failed [epoll_init] obtained, every one of which the initialisation had
    already freed, and closes that value of [epoll_fd]. *)
Theorem term_after_failed_init (env : init_env) (p : poller) :
  forallb (acquires env) all_resources = false ->
  let ig := epoll_init_g env p globals0 in
  let t := epoll_term (snd ig) (init_poller (fst ig)) in
  let got := acquired_upto env all_resources in
  init_ret (fst ig) = 0 /\
  epoll_fd (snd ig) =
    (if epoll_create_ret env <? 0 then epoll_create_ret env else 0) /\
  fst (fst t) = map Free (rev (tl got)) ++ [Close (epoll_fd (snd ig))] /\
  forall r, In (Free r) (fst (fst t)) -> In (Release r) (init_trace (fst ig)).
Proof.
  destruct env as [efd ok]. unfold epoll_init_g, epoll_term, globals0. simpl.
  destruct (efd <? 0); simpl; [intros _; repeat split; freed_before|].
  destruct (ok R_epoll_events); simpl;
    [|intros _; repeat split; freed_before].
  destruct (ok R_PrevReadEvent); simpl;
    [|intros _; repeat split; freed_before].
  destruct (ok R_PrevWriteEvent); simpl;
    [|intros _; repeat split; freed_before].
  destruct (ok R_StaticReadEvent); simpl;
    [|intros _; repeat split; freed_before].
  destruct (ok R_StaticWriteEvent); simpl;
    [discriminate | intros _; repeat split; freed_before].
Qed.

Lemma epoll_init_ret_pref (env : init_env) (p : poller) :
  if forallb (acquires env) all_resources
  then init_ret (epoll_init env p) = 1 /\
       pref (init_poller (epoll_init env p)) = pref p
  else init_ret (epoll_init env p) = 0 /\
       pref (init_poller (epoll_init env p)) = 0.
Proof.
  destruct env as [efd ok]. unfold epoll_init. simpl.
  destruct (efd <? 0); simpl; [split; reflexivity|].
  destruct (ok R_epoll_events); simpl; [|split; reflexivity].
  destruct (ok R_PrevReadEvent); simpl; [|split; reflexivity].
  destruct (ok R_PrevWriteEvent); simpl; [|split; reflexivity].
  destruct (ok R_StaticReadEvent); simpl; [|split; reflexivity].
  destruct (ok R_StaticWriteEvent); simpl; split; reflexivity.
Qed.

(** X23. The life of a registered poller: [epoll_register] returns 1 and
    yields the name epoll and the preference 300, whatever the record
    held; the [init] it installs returns 1 and keeps the preference when
    every acquisition succeeds, and otherwise returns 0 and sets it to
    0; the [term] it installs sets it to 0 in either case. *)
Theorem register_lifecycle (p0 : poller_full) (env : init_env) (g : globals) :
  let p := snd (epoll_register p0) in
  let ig := p_init p env (p_core p) g in
  let t := p_term p (snd ig) (init_poller (fst ig)) in
  fst (epoll_register p0) = 1 /\
  p_name p = "epoll"%string /\
  pref (p_core p) = 300 /\
  (if forallb (acquires env) all_resources
   then init_ret (fst ig) = 1 /\ pref (init_poller (fst ig)) = 300
   else init_ret (fst ig) = 0 /\ pref (init_poller (fst ig)) = 0) /\
  pref (snd t) = 0.
Proof.
  cbv zeta. cbn [epoll_register fst snd p_name p_core p_init p_term].
  split; [reflexivity|]. split; [reflexivity|]. split; [reflexivity|].
  split; [|reflexivity].
  destruct (epoll_init_g_fst env (mkPoller 0 300) g) as [-> _].
  apply (epoll_init_ret_pref env (mkPoller 0 300)).
Qed.

(** ** The body of the loop under EPOLL_CTL_MOD_WORKAROUND *)

(** X24. Under EPOLL_CTL_MOD_WORKAROUND the loop body makes the calls of
    the default body, except that a modify becomes a delete, left out for
    a descriptor in state [FD_STCLOSE], followed by an add with the same
    flags; so it never makes a modify, and like the default body it
    leaves the state as it is. *)
Theorem workaround_replaces_modify (fd count ro wo rn wn : Z) (s : state) :
  0 <= count ->
  let r := sync_fd fd count ro wo rn wn s in
  let r' := sync_fd_workaround fd count ro wo rn wn s in
  final r = s /\ final r' = s /\
  trace r' =
    match trace r with
    | [Epoll_ctl EPOLL_CTL_MOD f m] =>
        (if fd_state s fd =? FD_STCLOSE then []
         else [Epoll_ctl EPOLL_CTL_DEL f m]) ++ [Epoll_ctl EPOLL_CTL_ADD f m]
    | t => t
    end.
Proof.
  intros Hc. cbv zeta. rewrite sync_fd_spec by assumption.
  unfold sync_fd_workaround, ctl_of. rewrite !land_shiftr_1 by assumption.
  destruct (Z.testbit ro count), (Z.testbit wo count),
           (Z.testbit rn count), (Z.testbit wn count);
    simpl; unfold bind, get, epoll_ctl, emit, ret, final, trace; simpl;
    destruct (fd_state s fd =? FD_STCLOSE); simpl; auto.
Qed.

(** ** Instances of the further properties *)

(** A closed list of words, each within 32 bits. *)
Ltac words_ok_tac :=
  unfold state_words_ok, words_ok; simpl;
  repeat split; repeat (constructor; [lia|]); constructor.

(** Descriptor 5, read direction: set then test, clear then test. *)
Lemma isset_after_update_witness :
  result (__fd_isset 5 DIR_RD (final (__fd_set 5 DIR_RD st_idle))) = 1 /\
  result (__fd_isset 5 DIR_RD (final (__fd_clr 5 DIR_RD st_want5))) = 0 /\
  result (__fd_isset 5 DIR_WR (final (__fd_set 5 DIR_RD st_idle))) = 0.
Proof.
  assert (H1 : fd_in_set 5 (load (dir_ev DIR_RD) st_idle)) by by_computation.
  assert (H2 : fd_in_set 5 (load (dir_ev DIR_RD) st_want5)) by by_computation.
  split; [exact (proj1 (isset_after_update 5 DIR_RD 5 DIR_RD st_idle H1))|].
  split; [exact (proj2 (isset_after_update 5 DIR_RD 5 DIR_RD st_want5 H2))|].
  exact (proj1 (isset_after_update 5 DIR_RD 5 DIR_WR st_idle H1)).
Defined.

(** The read bit of descriptor 5 is clear: set it, clear it, and the
    state is back. *)
Lemma cond_round_trip_witness :
  final (__fd_cond_c 5 DIR_RD (final (__fd_cond_s 5 DIR_RD st_idle))) = st_idle.
Proof.
  assert (H : fd_in_set 5 (load (dir_ev DIR_RD) st_idle)) by by_computation.
  exact (proj2 (proj2 (cond_round_trip 5 DIR_RD st_idle H))).
Defined.

(** Descriptors 5 and 37, in different words. *)
Lemma accessors_commute_witness :
  final (__fd_set 5 DIR_RD (final (__fd_clr 37 DIR_RD st_rw5))) =
  final (__fd_clr 37 DIR_RD (final (__fd_set 5 DIR_RD st_rw5))).
Proof.
  assert (H : 5 <> 37 \/ dir_ev DIR_RD <> dir_ev DIR_RD) by (left; lia).
  exact (proj2 (proj2 (accessors_commute 5 DIR_RD 37 DIR_RD st_rw5 H))).
Defined.

Lemma accessors_keep_words_witness :
  state_words_ok (final (__fd_set 31 DIR_WR st_rw5)).
Proof.
  assert (H : state_words_ok st_rw5) by words_ok_tac.
  exact (proj1 (accessors_keep_words 31 DIR_WR st_rw5 H)).
Defined.

(** The add of descriptor 5 in the poll of [st_want5]. *)
Lemma ctl_calls_wellformed_witness :
  0 <= 5 < maxfd st_want5 /\
  EPOLLIN = ev_mask (fds_isset 5 (StaticReadEvent st_want5))
                    (fds_isset 5 (StaticWriteEvent st_want5)).
Proof.
  assert (H : In (Epoll_ctl EPOLL_CTL_ADD 5 EPOLLIN)
                 (trace (epoll_poll cb_none 10 0 [] st_want5)))
    by (left; reflexivity).
  pose proof (ctl_calls_wellformed cb_none 10 0 [] st_want5
                                   EPOLL_CTL_ADD 5 EPOLLIN H) as (H1 & H2 & _).
  split; assumption.
Defined.

(** Descriptor 5 open, registered for reading, no longer wanted. *)
Lemma open_fd_exact_call_witness :
  ctl_calls_for 5
    (trace (epoll_poll cb_none 10 0 []
              (mkState [0; 0] [0; 0] [32; 0] [0; 0] 40 (repeat 1 64%nat))))
  = [Epoll_ctl EPOLL_CTL_DEL 5 0].
Proof.
  refine (open_fd_exact_call cb_none 10 0 []
            (mkState [0; 0] [0; 0] [32; 0] [0; 0] 40 (repeat 1 64%nat)) 5 _ _).
  - by_computation.
  - by_computation.
Defined.

(** [maxfd] is 0 although descriptor 5 is wanted. *)
Lemma poll_nothing_to_scan_witness :
  trace (epoll_poll cb_none 10 0 []
           (mkState [32] [0] [0] [0] 0 (repeat 1 8%nat)))
  = [Epoll_wait 0 10; Tv_now].
Proof.
  refine (f_equal trace
            (poll_nothing_to_scan cb_none 10 0 []
               (mkState [32] [0] [0] [0] 0 (repeat 1 8%nat)) _)).
  by_computation.
Defined.

(** Descriptor 5 is pending close when its record is reached. *)
Lemma stale_record_skipped_witness :
  trace (epoll_poll cb_none 10 1 [mkEvent EPOLLIN 5] st_closed5) =
  [Epoll_ctl EPOLL_CTL_ADD 5 EPOLLIN; Epoll_wait 40 10; Tv_now].
Proof.
  refine (f_equal trace
            (stale_record_skipped cb_none 10 1 [] [] (mkEvent EPOLLIN 5)
                                  st_closed5 _ _)).
  - by_computation.
  - left. reflexivity.
Defined.

(** Descriptor 5 wanted for both directions, EPOLLIN alone. *)
Lemma single_flag_single_callback_witness :
  trace (epoll_poll cb_none 10 1 [mkEvent EPOLLIN 5] st_rw5) =
  [Epoll_wait 40 10; Tv_now; Callback DIR_RD 5].
Proof.
  refine (single_flag_single_callback cb_none 10 1 [] (mkEvent EPOLLIN 5)
                                      st_rw5 _ _).
  - by_computation.
  - left. reflexivity.
Defined.

Lemma record_callbacks_shape_witness :
  exists t,
    trace (epoll_poll cb_rd_closes 10 1 [mkEvent EPOLLHUP 5] st_rw5) =
    trace (epoll_poll cb_rd_closes 10 1 [] st_rw5) ++ t /\
    (t = [] \/ t = [Callback DIR_RD 5] \/ t = [Callback DIR_WR 5] \/
     t = [Callback DIR_RD 5; Callback DIR_WR 5]).
Proof.
  refine (record_callbacks_shape cb_rd_closes 10 1 [] (mkEvent EPOLLHUP 5)
                                 st_rw5 _).
  by_computation.
Defined.

Lemma poll_after_set_adds_witness :
  ctl_calls_for 5
    (trace (epoll_poll cb_none 10 0 [] (final (__fd_set 5 DIR_WR st_idle))))
  = [Epoll_ctl EPOLL_CTL_ADD 5 EPOLLOUT].
Proof.
  refine (poll_after_set_adds cb_none 10 0 [] st_idle 5 DIR_WR _ _ _).
  - by_computation.
  - by_computation.
  - intros p. destruct p; reflexivity.
Defined.

Lemma poll_after_rem_deletes_witness :
  ctl_calls_for 5
    (trace (epoll_poll cb_none 10 0 [] (final (__fd_rem 5 st_rw5))))
  = [Epoll_ctl EPOLL_CTL_DEL 5 0].
Proof.
  refine (poll_after_rem_deletes cb_none 10 0 [] st_rw5 5 _ _).
  - by_computation.
  - left. reflexivity.
Defined.

(** [__fd_clo 6] between the want of descriptor 5 and the poll. *)
Lemma accessor_effect_local_witness :
  ctl_calls_for 5
    (trace (epoll_poll cb_none 10 0 [] (final (__fd_clo 6 st_want5))))
  = ctl_calls_for 5 (trace (epoll_poll cb_none 10 0 [] st_want5)).
Proof.
  assert (H : 5 <> 6) by lia.
  pose proof (accessor_effect_local cb_none 10 0 [] st_want5 6 DIR_RD 5 H)
    as (_ & _ & _ & _ & _ & H6).
  exact H6.
Defined.

Lemma poll_keeps_words_witness :
  state_words_ok
    (final (epoll_poll cb_rd_closes 10 1 [mkEvent EPOLLHUP 5] st_rw5)).
Proof.
  refine (poll_keeps_words cb_rd_closes 10 1 [mkEvent EPOLLHUP 5] st_rw5 _ _).
  - intros dir fd s' Hok. unfold cb_rd_closes.
    destruct (dir =? DIR_RD); [|exact Hok].
    now apply clo_words_ok.
  - words_ok_tac.
Defined.

(** Every acquisition succeeds, [epoll_create] returning 3. *)
Lemma init_then_term_witness :
  fst (fst (epoll_term (snd (epoll_init_g (mkEnv 3 (fun _ => true))
                                          (mkPoller 7 300) globals0))
                       (mkPoller 0 300)))
  = [Free R_StaticWriteEvent; Free R_StaticReadEvent; Free R_PrevWriteEvent;
     Free R_PrevReadEvent; Free R_epoll_events; Close 3].
Proof.
  exact (proj1 (proj2 (init_then_term (mkEnv 3 (fun _ => true))
                                      (mkPoller 7 300) globals0 eq_refl))).
Defined.

(** The [calloc] of [PrevWriteEvent] fails: [epoll_init] frees
    [PrevReadEvent] and [epoll_events] and closes descriptor 3; an
    [epoll_term] would free the two again and close descriptor 0. *)
Lemma term_after_failed_init_witness :
  let env := mkEnv 3 (fun r => negb (resource_eqb r R_PrevWriteEvent)) in
  let ig := epoll_init_g env (mkPoller 7 300) globals0 in
  init_trace (fst ig) =
    [Acquire R_epoll_fd; Acquire R_epoll_events; Acquire R_PrevReadEvent;
     Release R_PrevReadEvent; Release R_epoll_events; Release R_epoll_fd] /\
  fst (fst (epoll_term (snd ig) (init_poller (fst ig)))) =
    [Free R_PrevReadEvent; Free R_epoll_events; Close 0].
Proof.
  split; [reflexivity|].
  exact (proj1 (proj2 (proj2
           (term_after_failed_init
              (mkEnv 3 (fun r => negb (resource_eqb r R_PrevWriteEvent)))
              (mkPoller 7 300) eq_refl)))).
Defined.

(** Descriptor 5 registered for reading and now wanted for both. *)
Lemma workaround_replaces_modify_witness :
  trace (sync_fd 5 5 32 0 32 32 st_idle) =
    [Epoll_ctl EPOLL_CTL_MOD 5 (Z.lor EPOLLIN EPOLLOUT)] /\
  trace (sync_fd_workaround 5 5 32 0 32 32 st_idle) =
    [Epoll_ctl EPOLL_CTL_DEL 5 (Z.lor EPOLLIN EPOLLOUT);
     Epoll_ctl EPOLL_CTL_ADD 5 (Z.lor EPOLLIN EPOLLOUT)].
Proof.
  split; [reflexivity|].
  assert (H : 0 <= 5) by lia.
  exact (proj2 (proj2 (workaround_replaces_modify 5 5 32 0 32 32 st_idle H))).
Defined.

(** ** The three ways of reading the four bits (lines 231-250) *)

(** X25. The three compile-time variants for reading a bit in the loop
    over a changed word agree: for the descriptor at position [count] of
    word [fds], [(ro >> count) & 1] on the word read, [FD_ISSET] of the
    position [fd & ((1<<INTBITS)-1)] in that word taken as a set, and
    [FD_ISSET] of [fd] in the whole set give the same bit. *)
Theorem bit_reading_variants (ev : fd_set) (fds count : Z) :
  0 <= fds -> 0 <= count < Z.shiftl 1 INTBITS ->
  let fd := Z.shiftl fds INTBITS + count in
  let ro := word_at ev fds in
  Z.land (Z.shiftr ro count) 1 =
    Z.b2z (fds_isset (Z.land fd (Z.shiftl 1 INTBITS - 1)) [ro]) /\
  Z.land (Z.shiftr ro count) 1 = Z.b2z (fds_isset fd ev).
Proof.
  change (Z.shiftl 1 INTBITS) with 32. intros Hfds Hc fd ro.
  assert (Hfd : fd = 32 * fds + count).
  { subst fd. rewrite Z.shiftl_mul_pow2, pow_INTBITS by (unfold INTBITS; lia).
    lia. }
  assert (Helt : fd_elt fd = fds).
  { unfold fd_elt. rewrite pow_INTBITS. symmetry.
    apply (Z.div_unique fd 32 fds count); lia. }
  assert (Hmod : fd mod 2 ^ INTBITS = count).
  { rewrite pow_INTBITS. symmetry.
    apply (Z.mod_unique fd 32 fds count); lia. }
  rewrite land_shiftr_1 by lia. split; f_equal.
  - change (32 - 1) with (Z.ones 5). rewrite Z.land_ones by lia.
    change (2 ^ 5) with (2 ^ INTBITS). rewrite Hmod.
    rewrite fds_isset_testbit.
    assert (fd_elt count = 0) as ->.
    { unfold fd_elt. rewrite pow_INTBITS. apply Z.div_small. lia. }
    assert (count mod 2 ^ INTBITS = count) as ->.
    { rewrite pow_INTBITS. apply Z.mod_small. lia. }
    reflexivity.
  - rewrite fds_isset_testbit, Helt, Hmod. reflexivity.
Qed.

Lemma bit_reading_variants_witness :
  Z.land (Z.shiftr 8192 13) 1 = Z.b2z (fds_isset 45 [0; 8192]).
Proof.
  assert (H1 : 0 <= 1) by lia.
  assert (H2 : 0 <= 13 < Z.shiftl 1 INTBITS) by by_computation.
  exact (proj2 (bit_reading_variants [0; 8192] 1 13 H1 H2)).
Defined.

(** ** The kernel's interest list across a poll *)

Lemma kernel_ctl_other (k : ktab) (e : event) (d : Z) :
  is_ctl_for d e = false -> kernel_ctl k e d = k d.
Proof.
  destruct e as [op fd m| | |]; try reflexivity. simpl. intros Hne.
  destruct op; simpl; destruct (k fd); try reflexivity;
    unfold ktab_set; rewrite Z.eqb_sym, Hne; reflexivity.
Qed.

Lemma kernel_ctl_ext (k k' : ktab) (e : event) (d : Z) :
  is_ctl_for d e = true -> k d = k' d -> kernel_ctl k e d = kernel_ctl k' e d.
Proof.
  destruct e as [op fd m| | |]; try discriminate. simpl. intros Hfd Hk.
  apply Z.eqb_eq in Hfd. subst fd.
  destruct op; simpl; rewrite <- Hk; destruct (k d) eqn:E;
    unfold ktab_set; rewrite ?Z.eqb_refl; congruence.
Qed.

(** What the interest list holds for [d] after a trace only depends on
    the calls for [d]. *)
Lemma kernel_run_for (tr : list event) :
  forall (k k' : ktab) (d : Z),
    k d = k' d ->
    kernel_run tr k d = kernel_run (ctl_calls_for d tr) k' d.
Proof.
  unfold kernel_run, ctl_calls_for.
  induction tr as [|e tr IH]; intros k k' d Hk; [exact Hk|].
  cbn [fold_left List.filter].
  destruct (is_ctl_for d e) eqn:E.
  - cbn [fold_left]. apply IH. now apply kernel_ctl_ext.
  - apply IH. now rewrite kernel_ctl_other.
Qed.

(** X26. A poll brings the kernel's interest list in line with the
    desired sets.  Suppose that for every descriptor in [0, maxfd) that is
    not in state [FD_STCLOSE] the interest list holds what the previous
    bits say (nothing when both are clear, otherwise the flags of the
    bits).  Then after the registration calls of [epoll_poll], for every
    such descriptor the interest list holds what the desired bits say,
    which, the previous sets having a word for each of these descriptors,
    is also what the previous bits say after the poll's reconciliation;
    and for a descriptor outside [0, maxfd) the list is unchanged. *)
Theorem poll_syncs_kernel (cb : Z -> Z -> state -> state)
        (wait_time status : Z) (evs : list epoll_event) (s : state) (k : ktab) :
  prev_covers s ->
  (forall fd, 0 <= fd < maxfd s -> fd_state s fd <> FD_STCLOSE ->
     k fd = kernel_view (fds_isset fd (PrevReadEvent s))
                        (fds_isset fd (PrevWriteEvent s))) ->
  let k' := kernel_run (trace (epoll_poll cb wait_time status evs s)) k in
  let s1 := final (reconcile s) in
  (forall fd, 0 <= fd < maxfd s -> fd_state s fd <> FD_STCLOSE ->
     k' fd = kernel_view (fds_isset fd (StaticReadEvent s))
                         (fds_isset fd (StaticWriteEvent s)) /\
     k' fd = kernel_view (fds_isset fd (PrevReadEvent s1))
                         (fds_isset fd (PrevWriteEvent s1))) /\
  (forall fd, ~ 0 <= fd < maxfd s -> k' fd = k fd).
Proof.
  intros [Hcr Hcw] Hinv k' s1. split.
  - intros fd Hfd Hst.
    assert (Hk : k' fd = kernel_view (fds_isset fd (StaticReadEvent s))
                                     (fds_isset fd (StaticWriteEvent s))).
    { subst k'. rewrite (kernel_run_for _ k k fd eq_refl).
      rewrite poll_ctl_calls_for.
      destruct (Z.leb_spec 0 fd); [|lia].
      destruct (Z.ltb_spec fd (maxfd s)); [|lia]. cbn [andb].
      unfold expected_ctl, ctl_of. apply Z.eqb_neq in Hst. rewrite Hst.
      pose proof (Hinv fd Hfd (proj1 (Z.eqb_neq _ _) Hst)) as Hkfd.
      destruct (fds_isset fd (PrevReadEvent s)),
               (fds_isset fd (PrevWriteEvent s)),
               (fds_isset fd (StaticReadEvent s)),
               (fds_isset fd (StaticWriteEvent s));
        unfold kernel_run; cbn [Bool.eqb andb orb fold_left kernel_ctl];
        rewrite Hkfd; unfold kernel_view, ktab_set; cbn [orb];
        rewrite ?Z.eqb_refl; reflexivity. }
    split; [exact Hk|]. rewrite Hk.
    destruct (reconcile_spec s) as [_ (_ & _ & _ & _ & _ & _ & A7 & A8)].
    fold s1 in A7, A8.
    assert (H0 : 0 <= fd_elt fd /\ 2 ^ INTBITS * fd_elt fd < maxfd s).
    { pose proof (fd_split fd). pose proof (fd_bit_range fd).
      rewrite pow_INTBITS in *. lia. }
    rewrite !(fds_isset_testbit fd (PrevReadEvent s1)),
            !(fds_isset_testbit fd (PrevWriteEvent s1)), A7, A8.
    rewrite !synced_word_covered by (tauto || assumption).
    rewrite <- !fds_isset_testbit. reflexivity.
  - intros fd Hout. subst k'. rewrite (kernel_run_for _ k k fd eq_refl).
    rewrite poll_ctl_calls_for.
    destruct (Z.leb_spec 0 fd); [|reflexivity].
    destruct (Z.ltb_spec fd (maxfd s)); [lia|reflexivity].
Qed.

(** Nothing registered yet, descriptor 5 newly wanted for reading: after
    the poll the kernel watches it for EPOLLIN. *)
Lemma poll_syncs_kernel_witness :
  kernel_run (trace (epoll_poll cb_none 10 0 [] st_want5)) (fun _ => None) 5
  = Some EPOLLIN.
Proof.
  assert (H1 : prev_covers st_want5) by by_computation.
  assert (H2 : forall fd, 0 <= fd < maxfd st_want5 ->
                 fd_state st_want5 fd <> FD_STCLOSE ->
                 (fun _ : Z => @None Z) fd =
                 kernel_view (fds_isset fd (PrevReadEvent st_want5))
                             (fds_isset fd (PrevWriteEvent st_want5))).
  { intros fd _ _. rewrite !fds_isset_testbit.
    assert (Hz : forall i, word_at [0; 0] i = 0).
    { intros i. unfold word_at. destruct (i <? 0); [reflexivity|].
      destruct (Z.to_nat i) as [|[|n]]; reflexivity. }
    change (PrevReadEvent st_want5) with [0; 0].
    change (PrevWriteEvent st_want5) with [0; 0].
    rewrite !Hz, Z.bits_0. reflexivity. }
  assert (H3 : 0 <= 5 < maxfd st_want5) by by_computation.
  assert (H4 : fd_state st_want5 5 <> FD_STCLOSE) by by_computation.
  exact (proj1 (proj1 (poll_syncs_kernel cb_none 10 0 [] st_want5
                         (fun _ => None) H1 H2) 5 H3 H4)).
Defined.
